(** * Aquarium: fish-count planner, behaviour queue, frame step, FPS timer,
      start-up options, and the Dawn context's per-fish resources, adapter
      choice, texture uploads and instance counter.

    Shallow embedding of
      - src/aquarium-optimized/Aquarium.cpp
      - src/aquarium-optimized/dawn/ContextDawn.cpp
      - src/aquarium-optimized/dawn/TextureDawn.cpp
      - src/aquarium-optimized/dawn/GenericModelDawn.cpp
      - src/common/FPSTimer.cpp

    Conventions.
    - A C++ [int] is a [Z]; arithmetic that can leave the 32-bit range is
      written with [wrap_int] (two's complement wrap-around, which is what
      the supported compilers produce; the language leaves it undefined).
    - Arrays and vectors are lists; an access the source performs outside
      the bounds is undefined in C++ and is made visible here by recording
      the index (access logs) or by an explicit range test.
    - Calls into the graphics backend are recorded as events. *)

From Stdlib Require Import ZArith QArith Qround List Bool Lia Permutation.
From stdpp Require Import base list strings.
Import ListNotations.

Local Open Scope Z_scope.

(** ** Machine integers *)

Module CInt.

Definition INT_MAX : Z := 2147483647.
Definition INT_MIN : Z := -2147483648.

Definition wrap_int (x : Z) : Z := (x + 2147483648) mod 4294967296 - 2147483648.

Definition in_int (x : Z) : Prop := INT_MIN <= x <= INT_MAX.

Definition int_add (a b : Z) : Z := wrap_int (a + b).
Definition int_sub (a b : Z) : Z := wrap_int (a - b).

Lemma wrap_int_id x : in_int x -> wrap_int x = x.
Proof.
  unfold in_int, wrap_int, INT_MIN, INT_MAX. intros Hx.
  rewrite Z.mod_small; lia.
Qed.

Lemma wrap_int_range x : in_int (wrap_int x).
Proof.
  unfold in_int, wrap_int, INT_MIN, INT_MAX.
  pose proof (Z.mod_pos_bound (x + 2147483648) 4294967296 ltac:(lia)). lia.
Qed.

End CInt.
Export CInt.

(** ** Arrays of [int] *)

Module CArray.

(** [a[i] = v].  Outside [0 .. length a) the store is undefined behaviour
    in the source; the model leaves the array as it is there. *)
Definition store (a : list Z) (i : Z) (v : Z) : list Z :=
  if (0 <=? i) && (i <? Z.of_nat (length a)) then <[Z.to_nat i := v]> a else a.

(** [a[i]], with 0 standing for an out-of-range read. *)
Definition load (a : list Z) (i : Z) : Z :=
  if (0 <=? i) then default 0 (a !! Z.to_nat i) else 0.

Definition Zsum (l : list Z) : Z := foldr Z.add 0 l.

Lemma Zsum_app l1 l2 : Zsum (l1 ++ l2) = Zsum l1 + Zsum l2.
Proof. induction l1 as [|x l1 IH]; simpl; [reflexivity | rewrite IH; lia]. Qed.

Lemma Zsum_perm l1 l2 : Permutation l1 l2 -> Zsum l1 = Zsum l2.
Proof. induction 1; simpl; lia. Qed.

Lemma store_length a i v : length (store a i v) = length a.
Proof. unfold store. destruct (_ && _); [apply length_insert | reflexivity]. Qed.

Lemma load_store_eq a i v :
  0 <= i < Z.of_nat (length a) -> load (store a i v) i = v.
Proof.
  intros Hi. unfold load, store.
  assert ((0 <=? i) = true) as -> by lia.
  assert ((i <? Z.of_nat (length a)) = true) as -> by lia. simpl.
  rewrite list_lookup_insert_eq by lia. reflexivity.
Qed.

Lemma load_store_ne a i j v : i <> j -> load (store a i v) j = load a j.
Proof.
  intros Hne. unfold load, store.
  destruct (0 <=? j) eqn:Hj; [|reflexivity].
  destruct ((0 <=? i) && (i <? Z.of_nat (length a))) eqn:Hi; [|reflexivity].
  rewrite list_lookup_insert_ne by lia. reflexivity.
Qed.

Lemma Zsum_insert (a : list Z) (n : nat) v :
  (n < length a)%nat -> Zsum (<[n := v]> a) = Zsum a - default 0 (a !! n) + v.
Proof.
  revert n. induction a as [|x a IH]; intros [|n] Hn; simpl in *; try lia.
  rewrite IH by lia. lia.
Qed.

Lemma Zsum_store a i v :
  0 <= i < Z.of_nat (length a) -> Zsum (store a i v) = Zsum a - load a i + v.
Proof.
  intros Hi. unfold load, store.
  assert ((0 <=? i) = true) as -> by lia.
  assert ((i <? Z.of_nat (length a)) = true) as -> by lia. simpl.
  apply Zsum_insert. lia.
Qed.

(** The array read back index by index. *)
Lemma map_load_seq (a : list Z) :
  map (fun j : nat => load a (Z.of_nat j)) (seq 0 (length a)) = a.
Proof.
  apply list_eq. intros i. rewrite list_lookup_fmap.
  destruct (decide (i < length a)%nat) as [Hlt|Hge].
  - rewrite lookup_seq_lt by lia. simpl. unfold load.
    assert ((0 <=? Z.of_nat i) = true) as -> by lia.
    rewrite Nat2Z.id. destruct (lookup_lt_is_Some_2 a i Hlt) as [x Hx].
    rewrite Hx. reflexivity.
  - rewrite lookup_seq_ge by lia. simpl. symmetry. apply lookup_ge_None. lia.
Qed.

(** The values of [i] in [for (i = 0; i < n; ++i)]. *)
Definition upto (n : Z) : list Z := map Z.of_nat (seq 0 (Z.to_nat n)).

Lemma length_upto n : 0 <= n -> Z.of_nat (length (upto n)) = n.
Proof. intros Hn. unfold upto. rewrite length_map, length_seq. lia. Qed.

Lemma elem_of_upto n i : i ∈ upto n <-> 0 <= i < n.
Proof.
  unfold upto. rewrite list_elem_of_fmap. split.
  - intros (k & -> & Hk). apply elem_of_seq in Hk. lia.
  - intros Hi. exists (Z.to_nat i). split; [lia|]. apply elem_of_seq. lia.
Qed.

End CArray.

(** ** Aquarium::calculateFishCount *)

Module Planner.
Import CArray.

(** One row of [fishTable].  Only the fields the planner reads are kept;
    the animation tuning constants play no part in the allocation. *)
Record Fish := mkFish {
  name : string;
  modelName : Z;   (* MODELNAME enumerator *)
  type : Z         (* FISHENUM enumerator *)
}.

Section WithTable.

(** The declarations of Aquarium.h that [calculateFishCount] reads: the
    enumerators of [FISHENUM] and [MODELNAME], the species table and the
    scene tuning constants. *)
Variables BIG MEDIUM MAX : Z.
Variable MODELSMALLFISHA : Z.
Variable fishTable : list Fish.
Variables g_numFishSmall g_numFishMedium g_numFishBig : Z.
Variables g_numFishLeftSmall g_numFishLeftBig : Z.

(** The body of the inner loop for the species [fishInfo] in pass [i];
    the state is [(numLeft, fishCount)]. *)
Definition visit (mCurFishCount i : Z) (st : Z * list Z) (fishInfo : Fish)
  : Z * list Z :=
  let '(numLeft, fishCount) := st in
  if negb (type fishInfo =? i) then st
  else
    let numfloat :=
      if i =? BIG then
        let temp := if mCurFishCount <? g_numFishSmall then 1 else 2 in
        Z.min numLeft temp
      else if i =? MEDIUM then
        if mCurFishCount <? g_numFishMedium then
          Z.min numLeft (Z.quot mCurFishCount 10)
        else if mCurFishCount <? g_numFishBig then
          Z.min numLeft g_numFishLeftSmall
        else
          Z.min numLeft g_numFishLeftBig
      else numLeft in
    (int_sub numLeft numfloat,
     store fishCount (modelName fishInfo - MODELSMALLFISHA) numfloat).

(** [for (int i = 0; i < FISHENUM::MAX; ++i)] *)
Definition passes : list Z := upto MAX.

Definition calculateFishCount_loop (mCurFishCount : Z) (fishCount : list Z)
  : Z * list Z :=
  fold_left
    (fun st i => fold_left (visit mCurFishCount i) fishTable st)
    passes (mCurFishCount, fishCount).

(** The new contents of the [fishCount] array. *)
Definition calculateFishCount (mCurFishCount : Z) (fishCount : list Z) : list Z :=
  snd (calculateFishCount_loop mCurFishCount fishCount).

(** *** The loop nest as one sequence of visits *)

Definition of_class (i : Z) (f : Fish) : bool := type f =? i.

(** The species in the order in which the loop nest reaches them. *)
Definition visits : list Fish :=
  concat (map (fun i => filter (fun f => of_class i f = true) fishTable) passes).

(** What a reached species receives. *)
Definition share (T numLeft : Z) (f : Fish) : Z :=
  if type f =? BIG then Z.min numLeft (if T <? g_numFishSmall then 1 else 2)
  else if type f =? MEDIUM then
    if T <? g_numFishMedium then Z.min numLeft (Z.quot T 10)
    else if T <? g_numFishBig then Z.min numLeft g_numFishLeftSmall
    else Z.min numLeft g_numFishLeftBig
  else numLeft.

Definition slot (f : Fish) : Z := modelName f - MODELSMALLFISHA.

Definition give (T : Z) (st : Z * list Z) (f : Fish) : Z * list Z :=
  (int_sub (fst st) (share T (fst st) f),
   store (snd st) (slot f) (share T (fst st) f)).

Lemma visit_skip T i st f : of_class i f = false -> visit T i st f = st.
Proof.
  unfold of_class, visit. intros H. destruct st as [n fc]. rewrite H. reflexivity.
Qed.

Lemma visit_give T i st f : of_class i f = true -> visit T i st f = give T st f.
Proof.
  unfold of_class, visit, give, share, slot. intros H. destruct st as [n fc].
  rewrite H. simpl. apply Z.eqb_eq in H. rewrite H. reflexivity.
Qed.

Lemma inner_loop_filter T i l st :
  fold_left (visit T i) l st
  = fold_left (give T) (filter (fun f => of_class i f = true) l) st.
Proof.
  revert st. induction l as [|f l IH]; intros st; [reflexivity|].
  simpl fold_left. rewrite filter_cons.
  destruct (decide (of_class i f = true)) as [Hc|Hc].
  - simpl. rewrite visit_give by exact Hc. apply IH.
  - rewrite visit_skip by (destruct (of_class i f); congruence). apply IH.
Qed.

Lemma loop_nest_visits T ps st :
  fold_left (fun st i => fold_left (visit T i) fishTable st) ps st
  = fold_left (give T)
      (concat (map (fun i => filter (fun f => of_class i f = true) fishTable) ps)) st.
Proof.
  revert st. induction ps as [|i ps IH]; intros st; [reflexivity|].
  simpl. rewrite fold_left_app, <- inner_loop_filter. apply IH.
Qed.

Lemma calculateFishCount_loop_visits T fc :
  calculateFishCount_loop T fc = fold_left (give T) visits (T, fc).
Proof. apply loop_nest_visits. Qed.

(** *** What one visit does *)

Lemma share_bounds T n f :
  0 <= g_numFishLeftSmall -> 0 <= g_numFishLeftBig ->
  0 <= T -> 0 <= n -> 0 <= share T n f <= n.
Proof.
  intros Hs Hb HT Hn. unfold share.
  pose proof (Z.quot_pos T 10 HT ltac:(lia)) as Hq.
  repeat match goal with |- context [if ?b then _ else _] => destruct b end; lia.
Qed.

(** A species of a class other than BIG and MEDIUM takes all that is left. *)
Definition takes_rest (f : Fish) : Prop := type f <> BIG /\ type f <> MEDIUM.

Lemma share_rest T n f : takes_rest f -> share T n f = n.
Proof.
  intros [H1 H2]. unfold share.
  destruct (Z.eqb_spec (type f) BIG); [contradiction|].
  destruct (Z.eqb_spec (type f) MEDIUM); [contradiction|]. reflexivity.
Qed.

Definition loads (fc : list Z) (vs : list Fish) : Z :=
  Zsum (map (fun f => load fc (slot f)) vs).

Lemma loads_store_fresh fc i v vs :
  i ∉ map slot vs -> loads (store fc i v) vs = loads fc vs.
Proof.
  unfold loads. induction vs as [|g vs IH]; intros Hi; [reflexivity|].
  simpl in *. apply not_elem_of_cons in Hi as [Hne Hi].
  rewrite load_store_ne by exact Hne. rewrite IH by exact Hi. reflexivity.
Qed.

(** The invariant of the flattened loop. *)
Lemma fold_give_spec T vs :
  0 <= g_numFishLeftSmall -> 0 <= g_numFishLeftBig -> 0 <= T ->
  forall n fc,
    0 <= n <= INT_MAX ->
    NoDup (map slot vs) ->
    Forall (fun f => 0 <= slot f < Z.of_nat (length fc)) vs ->
    let r := fold_left (give T) vs (n, fc) in
    0 <= fst r <= n /\
    length (snd r) = length fc /\
    Zsum (snd r) = Zsum fc - loads fc vs + (n - fst r) /\
    (forall j, j ∈ map slot vs -> 0 <= load (snd r) j) /\
    (forall j, j ∉ map slot vs -> load (snd r) j = load fc j) /\
    (Exists takes_rest vs -> fst r = 0).
Proof.
  intros Hs Hb HT. induction vs as [|f vs IH]; intros n fc Hn Hnd Hin; simpl.
  - unfold loads. simpl. repeat split; try lia.
    + intros j Hj. inversion Hj.
    + intros Hex. inversion Hex.
  - simpl in Hnd. apply NoDup_cons in Hnd as [Hfresh Hnd].
    apply Forall_cons in Hin as [Hf Hin].
    pose proof (share_bounds T n f Hs Hb HT ltac:(lia)) as Hsh.
    set (s := share T n f) in *.
    assert (give T (n, fc) f = (n - s, store fc (slot f) s)) as ->.
    { unfold give. simpl. fold s. f_equal.
      apply wrap_int_id. unfold in_int, INT_MIN, INT_MAX in *. lia. }
    specialize (IH (n - s) (store fc (slot f) s)).
    rewrite store_length in IH.
    specialize (IH ltac:(lia) Hnd Hin). simpl in IH.
    destruct IH as (Hr & Hlen & Hsum & Hpos & Hkeep & Hrest).
    repeat split; try lia.
    + rewrite Hsum, loads_store_fresh by exact Hfresh.
      rewrite Zsum_store by exact Hf. unfold loads. simpl. lia.
    + intros j Hj. apply elem_of_cons in Hj as [->|Hj]; [|apply Hpos, Hj].
      rewrite Hkeep by exact Hfresh. rewrite load_store_eq by exact Hf. lia.
    + intros j Hj. apply not_elem_of_cons in Hj as [Hne Hj].
      rewrite Hkeep by exact Hj. apply load_store_ne. congruence.
    + intros Hex. apply Exists_cons in Hex as [Hex|Hex]; [|apply Hrest, Hex].
      assert (s = n) as Hsn by (apply share_rest, Hex). lia.
Qed.

(** *** Every species of a declared class is reached exactly once *)

Definition visits_upto (m : nat) : list Fish :=
  concat (map (fun i => filter (fun f => of_class i f = true) fishTable)
              (map Z.of_nat (seq 0 m))).

Lemma filter_class_split (m : nat) (l : list Fish) :
  filter (fun f => 0 <= type f < Z.of_nat (S m)) l
  ≡ₚ filter (fun f => 0 <= type f < Z.of_nat m) l
     ++ filter (fun f => of_class (Z.of_nat m) f = true) l.
Proof.
  induction l as [|f l IH]; [reflexivity|].
  rewrite !filter_cons. unfold of_class in *.
  destruct (Z.eqb_spec (type f) (Z.of_nat m)) as [He|Hne].
  - repeat case_decide; try lia; try congruence.
    rewrite IH. apply Permutation_middle.
  - repeat case_decide; try lia; try congruence.
    simpl. rewrite IH. reflexivity.
Qed.

Lemma visits_upto_perm (m : nat) :
  visits_upto m ≡ₚ filter (fun f => 0 <= type f < Z.of_nat m) fishTable.
Proof.
  induction m as [|m IH].
  - unfold visits_upto. simpl. symmetry.
    induction fishTable as [|f l IHl]; [reflexivity|].
    rewrite filter_cons. case_decide; [lia | exact IHl].
  - unfold visits_upto in *. rewrite seq_S, !map_app, concat_app. simpl.
    rewrite app_nil_r, IH. symmetry. apply filter_class_split.
Qed.

Lemma visits_perm :
  Forall (fun f => 0 <= type f < MAX) fishTable -> visits ≡ₚ fishTable.
Proof.
  intros Hall. unfold visits, passes, upto. fold (visits_upto (Z.to_nat MAX)).
  rewrite visits_upto_perm.
  assert (forall l : list Fish, Forall (fun f => 0 <= type f < MAX) l ->
            filter (fun f => 0 <= type f < Z.of_nat (Z.to_nat MAX)) l = l) as Hid.
  { induction 1 as [|f l Hf Hl IHl]; [reflexivity|].
    rewrite filter_cons. case_decide; [rewrite IHl; reflexivity | lia]. }
  rewrite Hid by exact Hall. reflexivity.
Qed.

Lemma loads_all_slots (fc : list Z) (vs : list Fish) :
  map slot vs ≡ₚ map Z.of_nat (seq 0 (length fc)) -> loads fc vs = Zsum fc.
Proof.
  intros Hp. unfold loads.
  transitivity (Zsum (map (fun j : nat => load fc (Z.of_nat j)) (seq 0 (length fc))));
    [|rewrite map_load_seq; reflexivity].
  rewrite <- (map_map Z.of_nat (load fc)), <- (map_map slot (load fc)).
  apply Zsum_perm, Permutation_map, Hp.
Qed.

(** C1.  For every requested total [T] with [0 <= T] (an [int]), the planner
    run over the species table gives every species a count [>= 0] and the
    counts add up to exactly [T].  The table is the one of Aquarium.h: every
    species has a declared class below [FISHENUM::MAX], at least one species
    is of the class that takes the remainder (SMALL), every entry of the
    [fishCount] array belongs to exactly one species, and the two fixed
    MEDIUM counts are not negative. *)
Theorem calculateFishCount_total (T : Z) (fishCount : list Z) :
  0 <= g_numFishLeftSmall -> 0 <= g_numFishLeftBig ->
  Forall (fun f => 0 <= type f < MAX) fishTable ->
  Exists takes_rest fishTable ->
  map slot fishTable ≡ₚ map Z.of_nat (seq 0 (length fishCount)) ->
  0 <= T <= INT_MAX ->
  length (calculateFishCount T fishCount) = length fishCount /\
  Forall (fun c => 0 <= c) (calculateFishCount T fishCount) /\
  Zsum (calculateFishCount T fishCount) = T.
Proof.
  intros Hs Hb Hcls Hrest Hslots HT.
  unfold calculateFishCount. rewrite calculateFishCount_loop_visits.
  pose proof (visits_perm Hcls) as Hv.
  assert (map slot visits ≡ₚ map Z.of_nat (seq 0 (length fishCount))) as Hvs.
  { rewrite <- Hslots. apply Permutation_map, Hv. }
  assert (NoDup (map slot visits)) as Hnd.
  { rewrite Hvs. apply NoDup_fmap_2; [apply Nat2Z.inj' | apply NoDup_seq]. }
  assert (Forall (fun f => 0 <= slot f < Z.of_nat (length fishCount)) visits) as Hin.
  { apply Forall_forall. intros f Hf.
    assert (slot f ∈ map Z.of_nat (seq 0 (length fishCount))) as Hm.
    { rewrite <- Hvs. apply list_elem_of_fmap. exists f. split; [reflexivity|exact Hf]. }
    apply list_elem_of_fmap in Hm as (k & -> & Hk). apply elem_of_seq in Hk. lia. }
  assert (Exists takes_rest visits) as Hex.
  { apply Exists_exists in Hrest as (f & Hf & Ht). apply Exists_exists.
    exists f. split; [|exact Ht]. rewrite Hv. exact Hf. }
  destruct (fold_give_spec T visits Hs Hb ltac:(lia) T fishCount HT Hnd Hin)
    as (Hr & Hlen & Hsum & Hpos & _ & Hzero).
  split; [exact Hlen|]. split.
  - apply Forall_lookup. intros k c Hk.
    assert (k < length fishCount)%nat as Hlt.
    { rewrite <- Hlen. eapply lookup_lt_Some, Hk. }
    specialize (Hpos (Z.of_nat k)).
    unfold load in Hpos. rewrite Nat2Z.id, Hk in Hpos.
    assert ((0 <=? Z.of_nat k) = true) as Hge by lia. rewrite Hge in Hpos.
    apply Hpos. rewrite Hvs. apply list_elem_of_fmap. exists k.
    split; [reflexivity|]. apply elem_of_seq. lia.
  - rewrite Hsum, (loads_all_slots _ _ Hvs), (Hzero Hex). lia.
Qed.

(** *** The result does not depend on what the array held *)

Lemma load_ext (a b : list Z) :
  length a = length b ->
  (forall k : nat, (k < length a)%nat -> load a (Z.of_nat k) = load b (Z.of_nat k)) ->
  a = b.
Proof.
  intros Hlen Hload. apply list_eq. intros k.
  destruct (decide (k < length a)%nat) as [Hlt|Hge].
  - specialize (Hload k Hlt). unfold load in Hload.
    assert ((0 <=? Z.of_nat k) = true) as Hk by lia. rewrite Hk, Nat2Z.id in Hload.
    destruct (lookup_lt_is_Some_2 a k Hlt) as [x Hx].
    destruct (lookup_lt_is_Some_2 b k ltac:(lia)) as [y Hy].
    rewrite Hx, Hy in *. simpl in Hload. congruence.
  - rewrite (proj2 (lookup_ge_None a k)), (proj2 (lookup_ge_None b k)) by lia.
    reflexivity.
Qed.

(** Two runs of the flattened loop from the same pool over two arrays end
    with the same pool, agree on every slot that was written, and leave
    the other slots as they were. *)
Lemma fold_give_agree T vs : forall n fc fc',
  length fc = length fc' ->
  Forall (fun f => 0 <= slot f < Z.of_nat (length fc)) vs ->
  let r := fold_left (give T) vs (n, fc) in
  let r' := fold_left (give T) vs (n, fc') in
  fst r = fst r' /\
  length (snd r) = length fc /\ length (snd r') = length fc' /\
  (forall j, j ∈ map slot vs -> load (snd r) j = load (snd r') j) /\
  (forall j, j ∉ map slot vs ->
     load (snd r) j = load fc j /\ load (snd r') j = load fc' j).
Proof.
  induction vs as [|f vs IH]; intros n fc fc' Hlen Hin; simpl.
  - repeat split; try reflexivity. intros j Hj. inversion Hj.
  - apply Forall_cons in Hin as [Hf Hin].
    set (s := share T n f).
    replace (give T (n, fc) f) with (int_sub n s, store fc (slot f) s)
      by reflexivity.
    replace (give T (n, fc') f) with (int_sub n s, store fc' (slot f) s)
      by reflexivity.
    specialize (IH (int_sub n s) (store fc (slot f) s) (store fc' (slot f) s)).
    rewrite !store_length in IH. specialize (IH Hlen Hin). simpl in IH.
    destruct IH as (Hn & Hl & Hl' & Hsame & Hkeep).
    repeat split; try assumption.
    + intros j Hj. destruct (decide (j ∈ map slot vs)) as [Hjin|Hjout].
      * apply Hsame, Hjin.
      * apply elem_of_cons in Hj as [->|Hj]; [|contradiction].
        destruct (Hkeep _ Hjout) as [-> ->].
        rewrite !load_store_eq by lia. reflexivity.
    + apply not_elem_of_cons in H as [Hne Hj]. destruct (Hkeep _ Hj) as [-> _].
      apply load_store_ne. congruence.
    + apply not_elem_of_cons in H as [Hne Hj]. destruct (Hkeep _ Hj) as [_ ->].
      apply load_store_ne. congruence.
Qed.

(** X1.  [calculateFishCount] replaces the whole allocation: when every
    species has a declared class and every entry of the array belongs to
    a species, the new counts depend on the total alone, not on what the
    array held before (for any total, also a negative one). *)
Theorem calculateFishCount_replaces (T : Z) (fishCount fishCount' : list Z) :
  Forall (fun f => 0 <= type f < MAX) fishTable ->
  map slot fishTable ≡ₚ map Z.of_nat (seq 0 (length fishCount)) ->
  length fishCount' = length fishCount ->
  calculateFishCount T fishCount' = calculateFishCount T fishCount.
Proof.
  intros Hcls Hslots Hlen.
  unfold calculateFishCount. rewrite !calculateFishCount_loop_visits.
  pose proof (visits_perm Hcls) as Hv.
  assert (map slot visits ≡ₚ map Z.of_nat (seq 0 (length fishCount))) as Hvs.
  { rewrite <- Hslots. apply Permutation_map, Hv. }
  assert (Forall (fun f => 0 <= slot f < Z.of_nat (length fishCount')) visits) as Hin.
  { apply Forall_forall. intros f Hf.
    assert (slot f ∈ map Z.of_nat (seq 0 (length fishCount))) as Hm.
    { rewrite <- Hvs. apply list_elem_of_fmap. exists f. split; [reflexivity|exact Hf]. }
    apply list_elem_of_fmap in Hm as (k & -> & Hk). apply elem_of_seq in Hk. lia. }
  destruct (fold_give_agree T visits T fishCount' fishCount Hlen Hin)
    as (_ & Hl & Hl' & Hsame & _).
  apply load_ext; [lia|].
  intros k Hk. apply Hsame. rewrite Hvs. apply list_elem_of_fmap.
  exists k. split; [reflexivity|]. apply elem_of_seq. lia.
Qed.

(** The sum and the sign of the counts, for use by the frame step. *)
Lemma calculateFishCount_counts (T : Z) (fishCount : list Z) :
  0 <= g_numFishLeftSmall -> 0 <= g_numFishLeftBig ->
  Forall (fun f => 0 <= type f < MAX) fishTable ->
  Exists takes_rest fishTable ->
  map slot fishTable ≡ₚ map Z.of_nat (seq 0 (length fishCount)) ->
  0 <= T <= INT_MAX ->
  length (calculateFishCount T fishCount) = length fishCount /\
  (forall k : nat, (k < length fishCount)%nat ->
     0 <= load (calculateFishCount T fishCount) (Z.of_nat k)) /\
  Zsum (calculateFishCount T fishCount) = T.
Proof.
  intros Hs Hb Hcls Hrest Hslots HT.
  unfold calculateFishCount. rewrite calculateFishCount_loop_visits.
  pose proof (visits_perm Hcls) as Hv.
  assert (map slot visits ≡ₚ map Z.of_nat (seq 0 (length fishCount))) as Hvs.
  { rewrite <- Hslots. apply Permutation_map, Hv. }
  assert (NoDup (map slot visits)) as Hnd.
  { rewrite Hvs. apply NoDup_fmap_2; [apply Nat2Z.inj' | apply NoDup_seq]. }
  assert (Forall (fun f => 0 <= slot f < Z.of_nat (length fishCount)) visits) as Hin.
  { apply Forall_forall. intros f Hf.
    assert (slot f ∈ map Z.of_nat (seq 0 (length fishCount))) as Hm.
    { rewrite <- Hvs. apply list_elem_of_fmap. exists f. split; [reflexivity|exact Hf]. }
    apply list_elem_of_fmap in Hm as (k & -> & Hk). apply elem_of_seq in Hk. lia. }
  assert (Exists takes_rest visits) as Hex.
  { apply Exists_exists in Hrest as (f & Hf & Ht). apply Exists_exists.
    exists f. split; [|exact Ht]. rewrite Hv. exact Hf. }
  destruct (fold_give_spec T visits Hs Hb ltac:(lia) T fishCount HT Hnd Hin)
    as (Hr & Hlen & Hsum & Hpos & _ & Hzero).
  split; [exact Hlen|]. split.
  - intros k Hk. apply Hpos. rewrite Hvs. apply list_elem_of_fmap.
    exists k. split; [reflexivity|]. apply elem_of_seq. lia.
  - rewrite Hsum, (loads_all_slots _ _ Hvs), (Hzero Hex). lia.
Qed.

End WithTable.
End Planner.

(** ** The declarations of Aquarium.h *)

Module Header.

(** Aquarium.h and the headers it includes declare the enumerators, the
    species table, the tuning constants and the record type that the
    functions embedded here use.  They are not among the sources at hand,
    so they are taken as parameters, bundled in one record. *)
Record Declarations := mkDeclarations {
  (* enum FISHENUM *)
  BIG : Z;
  MEDIUM : Z;
  MAX : Z;
  (* enum MODELNAME *)
  MODELSMALLFISHA : Z;
  MODELBIGFISHB : Z;
  MODELSMALLFISHAINSTANCEDDRAWS : Z;
  MODELBIGFISHBINSTANCEDDRAWS : Z;
  MODELMAX : Z;
  (* species table and scene tuning *)
  fishTable : list Planner.Fish;
  g_numFishSmall : Z;
  g_numFishMedium : Z;
  g_numFishBig : Z;
  g_numFishLeftSmall : Z;
  g_numFishLeftBig : Z;
  (* sizeof(FishPer) *)
  sizeof_FishPer : Z
}.

Definition calculateFishCount (h : Declarations) : Z -> list Z -> list Z :=
  Planner.calculateFishCount (BIG h) (MEDIUM h) (MAX h) (MODELSMALLFISHA h)
    (fishTable h) (g_numFishSmall h) (g_numFishMedium h) (g_numFishBig h)
    (g_numFishLeftSmall h) (g_numFishLeftBig h).

End Header.

(** ** The reference scene *)

Module Reference.
Import Planner.

(** Modelled from the spec: the declarations of Aquarium.h that the sources
    at hand use but do not contain.  The spec fixes their shape: size
    classes processed in the order BIG, MEDIUM, SMALL; a table of five fish
    species, from MODELSMALLFISHA to MODELBIGFISHB, in the order in which
    [updateAndDraw] indexes [fishTable] and [fishCount]; 1 or 2 big fish
    around a small-fish threshold; total/10, a fixed count, and a larger
    fixed count of medium fish around two further thresholds.  The numbers
    are those of the reference scene. *)
Definition BIG : Z := 0.
Definition MEDIUM : Z := 1.
Definition SMALL : Z := 2.
Definition MAX : Z := 3.

Definition MODELSMALLFISHA : Z := 23.
Definition MODELMEDIUMFISHA : Z := 24.
Definition MODELMEDIUMFISHB : Z := 25.
Definition MODELBIGFISHA : Z := 26.
Definition MODELBIGFISHB : Z := 27.
Definition MODELSMALLFISHAINSTANCEDDRAWS : Z := 28.
Definition MODELBIGFISHBINSTANCEDDRAWS : Z := 32.
Definition MODELMAX : Z := 33.

Definition fishTable : list Fish :=
  [ mkFish "SmallFishA" MODELSMALLFISHA SMALL;
    mkFish "MediumFishA" MODELMEDIUMFISHA MEDIUM;
    mkFish "MediumFishB" MODELMEDIUMFISHB MEDIUM;
    mkFish "BigFishA" MODELBIGFISHA BIG;
    mkFish "BigFishB" MODELBIGFISHB BIG ].

Definition g_numFishSmall : Z := 100.
Definition g_numFishMedium : Z := 1000.
Definition g_numFishBig : Z := 10000.
Definition g_numFishLeftSmall : Z := 80.
Definition g_numFishLeftBig : Z := 160.

Definition calculateFishCount : Z -> list Z -> list Z :=
  Planner.calculateFishCount BIG MEDIUM MAX MODELSMALLFISHA fishTable
    g_numFishSmall g_numFishMedium g_numFishBig
    g_numFishLeftSmall g_numFishLeftBig.

(** A record size; nothing proved below depends on its value. *)
Definition sizeof_FishPer : Z := 256.

Definition declarations : Header.Declarations :=
  Header.mkDeclarations BIG MEDIUM MAX
    MODELSMALLFISHA MODELBIGFISHB MODELSMALLFISHAINSTANCEDDRAWS
    MODELBIGFISHBINSTANCEDDRAWS MODELMAX
    fishTable g_numFishSmall g_numFishMedium g_numFishBig
    g_numFishLeftSmall g_numFishLeftBig sizeof_FishPer.

(** The default scene: 500 fish. *)
Example calculateFishCount_500 :
  calculateFishCount 500 [0; 0; 0; 0; 0] = [396; 50; 50; 2; 2].
Proof. reflexivity. Qed.

Example calculateFishCount_1 :
  calculateFishCount 1 [9; 9; 9; 9; 9] = [0; 0; 0; 1; 0].
Proof. reflexivity. Qed.

Example calculateFishCount_30000 :
  calculateFishCount 30000 [0; 0; 0; 0; 0] = [29676; 160; 160; 2; 2].
Proof. reflexivity. Qed.

Lemma calculateFishCount_total_witness :
  length (calculateFishCount 500 [0; 0; 0; 0; 0]) = 5%nat /\
  Forall (fun c => 0 <= c) (calculateFishCount 500 [0; 0; 0; 0; 0]) /\
  CArray.Zsum (calculateFishCount 500 [0; 0; 0; 0; 0]) = 500.
Proof.
  apply (Planner.calculateFishCount_total BIG MEDIUM MAX MODELSMALLFISHA fishTable
           g_numFishSmall g_numFishMedium g_numFishBig
           g_numFishLeftSmall g_numFishLeftBig 500 [0; 0; 0; 0; 0]).
  - unfold g_numFishLeftSmall. lia.
  - unfold g_numFishLeftBig. lia.
  - repeat constructor; simpl; unfold MAX, SMALL, MEDIUM, BIG; lia.
  - apply Exists_cons_hd. split; simpl; discriminate.
  - reflexivity.
  - unfold INT_MAX. lia.
Defined.

(** Whatever the array held, a total of 500 gives the default scene. *)
Lemma calculateFishCount_replaces_witness :
  calculateFishCount 500 [9; -7; 9; 2147483647; 9]
  = calculateFishCount 500 [0; 0; 0; 0; 0].
Proof.
  apply (Planner.calculateFishCount_replaces BIG MEDIUM MAX MODELSMALLFISHA fishTable
           g_numFishSmall g_numFishMedium g_numFishBig
           g_numFishLeftSmall g_numFishLeftBig 500
           [0; 0; 0; 0; 0] [9; -7; 9; 2147483647; 9]).
  - repeat constructor; simpl; unfold MAX, SMALL, MEDIUM, BIG; lia.
  - reflexivity.
  - reflexivity.
Defined.

End Reference.

(** ** ContextDawn: per-fish GPU resources and frame submission *)

Module ContextDawn.
Import CArray.

Inductive BufferUsage :=
| CopyDst_Uniform       (* dawn::BufferUsage::CopyDst | Uniform *)
| MapWrite_CopySrc.     (* dawn::BufferUsage::MapWrite | CopySrc *)

Record Buffer := mkBuffer { buf_size : Z; buf_usage : BufferUsage }.

(** A bind group over one range of one buffer. *)
Record BindGroup := mkBindGroup { bg_buffer : Buffer; bg_offset : Z; bg_size : Z }.

Inductive CommandBuffer :=
| RenderCommands
| CopyBufferToBuffer (src dst : option Buffer) (size : Z).

(** What the context asks of the backend and of the allocator. *)
Inductive Event :=
| EvReleaseBuffer (b : Buffer)
| EvDeleteFishPers (n : Z)
| EvReleaseBindGroup (i : Z) (g : BindGroup)
| EvBindGroupOutOfRange (i : Z)
| EvNewFishPers (n : Z)
| EvNewBindGroupArray (n : Z)
| EvCreateBuffer (b : Buffer)
| EvMakeBindGroup (g : BindGroup)
| EvSetBufferData (size : Z)
| EvMapWriteAsync
| EvMapWriteCallback
| EvEndPass
| EvFinish
| EvDeviceTick
| EvUSleep (us : Z)
| EvUnmap
| EvSubmit (cmds : list CommandBuffer)
| EvPresent
| EvPollEvents.

(** The members of [ContextDawn] that the per-fish resources and the
    submission of a frame use.  A null handle or pointer is [None]. *)
Record ContextDawn := mkContextDawn {
  fishPersBuffer : option Buffer;
  stagingBuffer : option Buffer;
  fishPers : option Z;                               (* FishPer[n] *)
  bindGroupFishPers : option (list (option BindGroup));
  mPreTotalInstance : Z;
  mCurTotalInstance : Z;
  mEnableDynamicBufferOffset : bool;
  mCommandBuffers : list CommandBuffer;
  mappedData : bool                                  (* mappedData != nullptr *)
}.

Definition wrap_u32 (x : Z) : Z := x mod 4294967296.

Section WithFishPer.

(** [sizeof(FishPer)]; the struct is declared in a header not at hand. *)
Variable sizeof_FishPer : Z.

(** [bindGroupFishPers[i] = nullptr] when it holds a group.  An index past
    the array is undefined behaviour in the source and is made visible. *)
Definition release_group (groups : list (option BindGroup)) (i : Z) : list Event :=
  match groups !! Z.to_nat i with
  | Some (Some g) => [EvReleaseBindGroup i g]
  | Some None => []
  | None => [EvBindGroupOutOfRange i]
  end.

Definition release_buffer (b : option Buffer) : list Event :=
  match b with Some b => [EvReleaseBuffer b] | None => [] end.

Definition destoryFishResource (s : ContextDawn) : ContextDawn * list Event :=
  let ev_buffer := release_buffer (fishPersBuffer s) in
  let ev_staging := release_buffer (stagingBuffer s) in
  let ev_fishPers :=
    match fishPers s with Some n => [EvDeleteFishPers n] | None => [] end in
  let ev_groups :=
    match bindGroupFishPers s with
    | None => []
    | Some groups =>
        if mEnableDynamicBufferOffset s then release_group groups 0
        else flat_map (release_group groups) (upto (mPreTotalInstance s))
    end in
  (mkContextDawn None None None None
     (mPreTotalInstance s) (mCurTotalInstance s) (mEnableDynamicBufferOffset s)
     (mCommandBuffers s) (mappedData s),
   ev_buffer ++ ev_staging ++ ev_fishPers ++ ev_groups).

(** The bind groups made by the growth path. *)
Definition new_groups (fishBuf : Buffer) (cur : Z) (dyn : bool) : list BindGroup :=
  if dyn then [mkBindGroup fishBuf 0 sizeof_FishPer]
  else map (fun i => mkBindGroup fishBuf (sizeof_FishPer * i) sizeof_FishPer) (upto cur).

(** The allocations of the growth path, in the order of the source. *)
Definition alloc_events (cur : Z) (dyn : bool) : list Event :=
  let fishBuf := mkBuffer (wrap_int (sizeof_FishPer * cur)) CopyDst_Uniform in
  let staging := mkBuffer (wrap_u32 (sizeof_FishPer * cur)) MapWrite_CopySrc in
  [EvNewFishPers cur; EvNewBindGroupArray (if dyn then 1 else cur);
   EvCreateBuffer fishBuf; EvCreateBuffer staging]
  ++ map EvMakeBindGroup (new_groups fishBuf cur dyn).

(** [None]: [new FishPer[n]] with a negative [n] throws. *)
Definition reallocResource (preTotalInstance curTotalInstance : Z)
    (enableDynamicBufferOffset : bool) (s : ContextDawn)
  : option (ContextDawn * list Event) :=
  let s0 := mkContextDawn (fishPersBuffer s) (stagingBuffer s) (fishPers s)
              (bindGroupFishPers s)
              preTotalInstance curTotalInstance enableDynamicBufferOffset
              (mCommandBuffers s) (mappedData s) in
  if curTotalInstance =? 0 then Some (s0, [])
  else if preTotalInstance >=? curTotalInstance then Some (s0, [])
  else
    let '(s1, ev_destroy) := destoryFishResource s0 in
    if curTotalInstance <? 0 then None
    else
      let fishBuf :=
        mkBuffer (wrap_int (sizeof_FishPer * curTotalInstance)) CopyDst_Uniform in
      let staging :=
        mkBuffer (wrap_u32 (sizeof_FishPer * curTotalInstance)) MapWrite_CopySrc in
      Some (mkContextDawn (Some fishBuf) (Some staging) (Some curTotalInstance)
              (Some (map Some (new_groups fishBuf curTotalInstance
                                 enableDynamicBufferOffset)))
              preTotalInstance curTotalInstance enableDynamicBufferOffset
              (mCommandBuffers s1) (mappedData s1),
            ev_destroy ++ alloc_events curTotalInstance enableDynamicBufferOffset).

(** The state with the three arguments recorded and nothing else changed. *)
Definition recorded (pre cur : Z) (dyn : bool) (s : ContextDawn) : ContextDawn :=
  mkContextDawn (fishPersBuffer s) (stagingBuffer s) (fishPers s)
    (bindGroupFishPers s) pre cur dyn (mCommandBuffers s) (mappedData s).

Definition is_release (e : Event) : bool :=
  match e with
  | EvReleaseBuffer _ | EvDeleteFishPers _ | EvReleaseBindGroup _ _
  | EvBindGroupOutOfRange _ => true
  | _ => false
  end.




Definition count (p : Event -> bool) (evs : list Event) : Z :=
  Z.of_nat (length (List.filter p evs)).





Lemma destoryFishResource_clears s :
  let s' := fst (destoryFishResource s) in
  fishPersBuffer s' = None /\ stagingBuffer s' = None /\
  fishPers s' = None /\ bindGroupFishPers s' = None.
Proof. repeat split. Qed.





Lemma length_new_groups b cur dyn :
  0 <= cur -> Z.of_nat (length (new_groups b cur dyn)) = if dyn then 1 else cur.
Proof.
  intros Hc. unfold new_groups. destruct dyn; [reflexivity|].
  rewrite length_map. apply length_upto, Hc.
Qed.

Lemma release_group_In groups i g :
  0 <= i -> groups !! Z.to_nat i = Some (Some g) ->
  In (EvReleaseBindGroup i g) (release_group groups i).
Proof. intros Hi H. unfold release_group. rewrite H. left. reflexivity. Qed.


(** *** Submission of a frame *)

(** The context together with the one fact about the backend that the
    submission depends on: whether a [MapWriteAsync] request is still
    unanswered. *)
Record World := mkWorld { ctx : ContextDawn; mapPending : bool }.

Definition with_commands (s : ContextDawn) (cmds : list CommandBuffer) : ContextDawn :=
  mkContextDawn (fishPersBuffer s) (stagingBuffer s) (fishPers s)
    (bindGroupFishPers s) (mPreTotalInstance s) (mCurTotalInstance s)
    (mEnableDynamicBufferOffset s) cmds (mappedData s).

Definition with_mappedData (s : ContextDawn) (m : bool) : ContextDawn :=
  mkContextDawn (fishPersBuffer s) (stagingBuffer s) (fishPers s)
    (bindGroupFishPers s) (mPreTotalInstance s) (mCurTotalInstance s)
    (mEnableDynamicBufferOffset s) (mCommandBuffers s) m.

(** The command that [MapWriteCallback] appends. *)
Definition copy_command (s : ContextDawn) : CommandBuffer :=
  CopyBufferToBuffer (stagingBuffer s) (fishPersBuffer s)
    (sizeof_FishPer * mCurTotalInstance s).

(** The callback on a successful mapping (both assertions hold): the data
    pointer is kept, the records are copied into the mapping, and the copy
    from the staging buffer is appended to [mCommandBuffers]. *)
Definition MapWriteCallback (s : ContextDawn) : ContextDawn * list Event :=
  (with_commands (with_mappedData s true) (mCommandBuffers s ++ [copy_command s]),
   [EvMapWriteCallback]).

(** [mDevice.Tick()]: the backend answers the pending request during this
    tick when [fire] says so, by calling [MapWriteCallback]. *)
Definition DeviceTick (fire : bool) (w : World) : World * list Event :=
  if fire && mapPending w then
    let '(s, ev) := MapWriteCallback (ctx w) in
    (mkWorld s false, EvDeviceTick :: ev)
  else (w, [EvDeviceTick]).

Definition WaitABit (fire : bool) (w : World) : World * list Event :=
  let '(w1, ev) := DeviceTick fire w in (w1, ev ++ [EvUSleep 100]).

(** [while (mappedData == nullptr) WaitABit();] against the ticks the
    backend grants; the flag tells whether the loop was left. *)
Fixpoint wait_for_mapping (ticks : list bool) (w : World)
  : World * list Event * bool :=
  if mappedData (ctx w) then (w, [], true)
  else
    match ticks with
    | [] => (w, [], false)
    | fire :: ticks' =>
        let '(w1, ev1) := WaitABit fire w in
        let '(w2, ev2, done) := wait_for_mapping ticks' w1 in
        (w2, ev1 ++ ev2, done)
    end.

Definition Flush (s : ContextDawn) : ContextDawn * list Event :=
  (with_commands s [], [EvSubmit (mCommandBuffers s)]).

(** The flag of the result tells whether [DoFlush] returned. *)
Definition DoFlush (bufferMappingAsync : bool) (ticks : list bool) (w : World)
  : World * list Event * bool :=
  let s0 := with_commands (ctx w) (mCommandBuffers (ctx w) ++ [RenderCommands]) in
  let ev0 := [EvEndPass; EvFinish] in
  if bufferMappingAsync then
    let '(w1, ev1, done) := wait_for_mapping ticks (mkWorld s0 (mapPending w)) in
    if done then
      let '(s2, ev2) := Flush (with_mappedData (ctx w1) false) in
      (mkWorld s2 (mapPending w1),
       ev0 ++ ev1 ++ [EvUnmap] ++ ev2 ++ [EvPresent; EvPollEvents], true)
    else (w1, ev0 ++ ev1, false)
  else
    let '(s2, ev2) := Flush s0 in
    (mkWorld s2 (mapPending w), ev0 ++ ev2 ++ [EvPresent; EvPollEvents], true).

Definition updateAllFishData (bufferMappingAsync : bool) (w : World)
  : World * list Event :=
  if bufferMappingAsync then (mkWorld (ctx w) true, [EvMapWriteAsync])
  else (w, [EvSetBufferData (sizeof_FishPer * mCurTotalInstance (ctx w))]).

(** One turn of [Aquarium::display] as far as the context sees it: the
    upload of the fish data (made by [updateAndDraw] in draw-per-model
    mode only) and [DoFlush]. *)
Definition frame (bufferMappingAsync drawPerModel : bool) (ticks : list bool)
    (w : World) : World * list Event * bool :=
  let '(w1, ev1) :=
    if drawPerModel then updateAllFishData bufferMappingAsync w else (w, []) in
  let '(w2, ev2, returned) := DoFlush bufferMappingAsync ticks w1 in
  (w2, ev1 ++ ev2, returned).

(** Frame after frame, until [DoFlush] does not return. *)
Fixpoint frames (bufferMappingAsync drawPerModel : bool)
    (ticks : list (list bool)) (w : World) : World * list Event * bool :=
  match ticks with
  | [] => (w, [], true)
  | t :: ticks' =>
      let '(w1, ev1, returned) := frame bufferMappingAsync drawPerModel t w in
      if returned then
        let '(w2, ev2, r) := frames bufferMappingAsync drawPerModel ticks' w1 in
        (w2, ev1 ++ ev2, r)
      else (w1, ev1, false)
  end.

(** *** The order of callback and submission in a trace *)

Definition is_copy (c : CommandBuffer) : bool :=
  match c with CopyBufferToBuffer _ _ _ => true | RenderCommands => false end.

(** Every [EvSubmit] comes after an [EvMapWriteCallback] that no earlier
    submit has used up, and submits a copy command; [fired] tells whether
    such a callback was seen before the trace starts. *)
Fixpoint submit_after_callback (fired : bool) (evs : list Event) : bool :=
  match evs with
  | [] => true
  | EvMapWriteCallback :: evs' => submit_after_callback true evs'
  | EvSubmit cmds :: evs' =>
      fired && existsb is_copy cmds && submit_after_callback false evs'
  | _ :: evs' => submit_after_callback fired evs'
  end.

Definition is_wait_event (e : Event) : bool :=
  match e with
  | EvDeviceTick | EvUSleep _ | EvMapWriteCallback => true
  | _ => false
  end.

Definition is_callback (e : Event) : bool :=
  match e with EvMapWriteCallback => true | _ => false end.

Lemma wait_for_mapping_mapped ticks w :
  mappedData (ctx w) = true -> wait_for_mapping ticks w = (w, [], true).
Proof. intros H. destruct ticks; simpl; rewrite H; reflexivity. Qed.

(** The polling loop: only ticks, sleeps and the callback happen in it; it
    is left exactly when the callback has run, and then the copy command is
    in [mCommandBuffers]. *)
Lemma wait_for_mapping_spec ticks : forall w,
  mappedData (ctx w) = false ->
  forall w' ev done, wait_for_mapping ticks w = (w', ev, done) ->
  forallb is_wait_event ev = true /\
  existsb is_callback ev = done /\
  mappedData (ctx w') = done /\
  (done = true -> existsb is_copy (mCommandBuffers (ctx w')) = true).
Proof.
  induction ticks as [|fire ticks IH]; intros w Hm w' ev done Hrun; simpl in Hrun;
    rewrite Hm in Hrun.
  - inversion Hrun; subst. repeat split; try assumption. discriminate.
  - unfold WaitABit, DeviceTick in Hrun.
    destruct (fire && mapPending w) eqn:Hfire.
    + simpl in Hrun. rewrite wait_for_mapping_mapped in Hrun by reflexivity.
      inversion Hrun; subst; clear Hrun. simpl.
      repeat split; try reflexivity.
      intros _. rewrite existsb_app. simpl. apply orb_true_r.
    + simpl in Hrun.
      destruct (wait_for_mapping ticks w) as [[w2 ev2] d2] eqn:Hrec.
      inversion Hrun; subst; clear Hrun.
      destruct (IH w Hm w' ev2 done Hrec) as (Hw & Hc & Hmd & Hcopy).
      simpl. repeat split; assumption.
Qed.

Lemma submit_after_callback_wait ev : forall fired rest,
  forallb is_wait_event ev = true ->
  submit_after_callback fired (ev ++ rest)
  = submit_after_callback (fired || existsb is_callback ev) rest.
Proof.
  induction ev as [|e ev IH]; intros fired rest Hev; simpl.
  - rewrite orb_false_r. reflexivity.
  - simpl in Hev. apply andb_true_iff in Hev as [He Hev].
    destruct e; try discriminate He; simpl; rewrite IH by exact Hev;
      try reflexivity.
    rewrite orb_true_r. reflexivity.
Qed.

(** One frame with asynchronous mapping leaves the order intact and hands
    the next frame a context whose [mappedData] is null again. *)
Lemma frame_async_spec drawPerModel ticks w :
  mappedData (ctx w) = false ->
  forall w' ev returned, frame true drawPerModel ticks w = (w', ev, returned) ->
  mappedData (ctx w') = false /\
  (forall rest, submit_after_callback false (ev ++ rest)
                = submit_after_callback false rest).
Proof.
  intros Hm w' ev returned Hrun. unfold frame in Hrun.
  set (w1 := fst (if drawPerModel then updateAllFishData true w else (w, []))).
  assert (mappedData (ctx w1) = false) as Hm1.
  { unfold w1. destruct drawPerModel; exact Hm. }
  set (ev1 := snd (if drawPerModel then updateAllFishData true w else (w, []))).
  assert (forall rest f, submit_after_callback f (ev1 ++ rest)
                         = submit_after_callback f rest) as Hev1.
  { unfold ev1. destruct drawPerModel; reflexivity. }
  assert ((if drawPerModel then updateAllFishData true w else (w, [])) = (w1, ev1)) as Heq.
  { unfold w1, ev1. destruct (if drawPerModel then _ else _). reflexivity. }
  rewrite Heq in Hrun. clear Heq. unfold DoFlush in Hrun.
  set (w1' := mkWorld _ (mapPending w1)) in Hrun.
  destruct (wait_for_mapping ticks w1') as [[w2 ev2] done] eqn:Hwait.
  assert (mappedData (ctx w1') = false) as Hm1' by exact Hm1.
  destruct (wait_for_mapping_spec ticks w1' Hm1' w2 ev2 done Hwait)
    as (Hw & Hc & Hmd & Hcopy).
  destruct done; simpl in Hrun; inversion Hrun; subst; clear Hrun.
  - split; [reflexivity|]. intros rest.
    rewrite <- app_assoc, Hev1. simpl.
    rewrite <- app_assoc, submit_after_callback_wait by exact Hw.
    rewrite Hc. simpl. rewrite (Hcopy eq_refl). reflexivity.
  - split; [exact Hmd|]. intros rest.
    rewrite <- app_assoc, Hev1. simpl.
    rewrite submit_after_callback_wait by exact Hw.
    rewrite Hc. reflexivity.
Qed.

Lemma frames_async_spec drawPerModel ticks : forall w,
  mappedData (ctx w) = false ->
  forall w' ev returned, frames true drawPerModel ticks w = (w', ev, returned) ->
  submit_after_callback false ev = true.
Proof.
  induction ticks as [|t ticks IH]; intros w Hm w' ev returned Hrun; simpl in Hrun.
  - inversion Hrun. reflexivity.
  - destruct (frame true drawPerModel t w) as [[w1 ev1] r1] eqn:Hframe.
    destruct (frame_async_spec drawPerModel t w Hm w1 ev1 r1 Hframe) as [Hm1 Hneutral].
    destruct r1.
    + destruct (frames true drawPerModel ticks w1) as [[w2 ev2] r2] eqn:Hrest.
      inversion Hrun; subst. rewrite Hneutral. eapply IH; eassumption.
    + inversion Hrun; subst. rewrite <- (app_nil_r ev), Hneutral. reflexivity.
Qed.

(** The loop is left once the backend answers a pending request. *)
Lemma wait_for_mapping_progress ticks : forall w,
  mapPending w = true -> In true ticks ->
  snd (wait_for_mapping ticks w) = true.
Proof.
  induction ticks as [|fire ticks IH]; intros w Hp Hin; [destruct Hin|].
  simpl. destruct (mappedData (ctx w)) eqn:Hm; [reflexivity|].
  unfold WaitABit, DeviceTick. rewrite Hp. destruct fire; simpl.
  - rewrite wait_for_mapping_mapped by reflexivity. reflexivity.
  - destruct Hin as [Hf|Hin]; [discriminate Hf|].
    specialize (IH w Hp Hin).
    destruct (wait_for_mapping ticks w) as [[w2 ev2] d2]. exact IH.
Qed.

(** C3.  With asynchronous buffer mapping enabled, and starting from a
    context whose [mappedData] is null (as the constructor leaves it):
    - in every run of frames, whatever the backend does at each tick, each
      [queue.Submit] comes after the map-write callback of its frame has
      fired, and the submitted list holds the copy command that the
      callback appended;
    - between finishing the frame's encoder and the submission, [DoFlush]
      does nothing but tick the device and sleep, until the callback has
      run; when it never runs, nothing is submitted;
    - once the backend answers the pending request, [DoFlush] returns. *)
Theorem submit_waits_for_callback drawPerModel (ticks : list (list bool)) (w : World) :
  mappedData (ctx w) = false ->
  submit_after_callback false (snd (fst (frames true drawPerModel ticks w))) = true /\
  (forall t, exists ev_wait cmds,
      forallb is_wait_event ev_wait = true /\
      existsb is_callback ev_wait = snd (DoFlush true t w) /\
      snd (fst (DoFlush true t w))
        = [EvEndPass; EvFinish] ++ ev_wait ++
          (if snd (DoFlush true t w)
           then [EvUnmap; EvSubmit cmds; EvPresent; EvPollEvents] else []) /\
      (snd (DoFlush true t w) = true -> existsb is_copy cmds = true)) /\
  (forall t, mapPending w = true -> In true t -> snd (DoFlush true t w) = true).
Proof.
  intros Hm. split; [|split].
  - destruct (frames true drawPerModel ticks w) as [[w' ev] r] eqn:Hrun.
    simpl. eapply frames_async_spec; eassumption.
  - intros t. unfold DoFlush.
    set (w1 := mkWorld _ (mapPending w)).
    destruct (wait_for_mapping t w1) as [[w2 ev2] done] eqn:Hwait.
    destruct (wait_for_mapping_spec t w1 Hm w2 ev2 done Hwait)
      as (Hw & Hc & Hmd & Hcopy).
    exists ev2, (mCommandBuffers (ctx w2)).
    destruct done; simpl; rewrite ?app_nil_r; repeat split;
      try assumption; try reflexivity; try discriminate.
  - intros t Hp Hin. unfold DoFlush.
    set (w1 := mkWorld _ (mapPending w)).
    pose proof (wait_for_mapping_progress t w1 Hp Hin) as Hprog.
    destruct (wait_for_mapping t w1) as [[w2 ev2] done]. simpl in Hprog.
    subst done. reflexivity.
Qed.

(** *** What a growth releases *)

Lemma release_group_inv groups i j g :
  In (EvReleaseBindGroup j g) (release_group groups i) ->
  j = i /\ groups !! Z.to_nat i = Some (Some g).
Proof.
  unfold release_group. destruct (groups !! Z.to_nat i) as [[g0|]|]; simpl; intros H.
  - destruct H as [H|[]]. inversion H; subst. auto.
  - destruct H.
  - destruct H as [H|[]]. discriminate H.
Qed.

Lemma release_buffer_no_group b j g :
  ~ In (EvReleaseBindGroup j g) (release_buffer b).
Proof. destruct b; simpl; intros H; [destruct H as [H|[]]; discriminate H | exact H]. Qed.

Lemma alloc_events_no_release cur dyn j g :
  ~ In (EvReleaseBindGroup j g) (alloc_events cur dyn).
Proof.
  unfold alloc_events. rewrite in_app_iff. intros [H|H].
  - simpl in H. repeat (destruct H as [H|H]; [discriminate H|]). exact H.
  - apply in_map_iff in H as (x & Hx & _). discriminate Hx.
Qed.

(** The bind groups that [destoryFishResource] releases. *)
Lemma destoryFishResource_releases s j g :
  In (EvReleaseBindGroup j g) (snd (destoryFishResource s)) <->
  exists groups, bindGroupFishPers s = Some groups /\
    groups !! Z.to_nat j = Some (Some g) /\
    (if mEnableDynamicBufferOffset s then j = 0 else 0 <= j < mPreTotalInstance s).
Proof.
  unfold destoryFishResource. cbn [snd]. rewrite !in_app_iff. split.
  - intros [H|[H|[H|H]]].
    + exfalso. eapply release_buffer_no_group, H.
    + exfalso. eapply release_buffer_no_group, H.
    + exfalso. destruct (fishPers s); simpl in H; [destruct H as [H|[]]; discriminate H | exact H].
    + destruct (bindGroupFishPers s) as [groups|]; [|destruct H].
      exists groups. split; [reflexivity|].
      destruct (mEnableDynamicBufferOffset s).
      * apply release_group_inv in H as [-> Hg]. split; [exact Hg | reflexivity].
      * apply in_flat_map in H as (i & Hi & H).
        apply release_group_inv in H as [-> Hg].
        apply list_elem_of_In, elem_of_upto in Hi. split; assumption.
  - intros (groups & Hg & Hj & Hrange). right. right. right. rewrite Hg.
    destruct (mEnableDynamicBufferOffset s).
    + subst j. apply release_group_In; [lia | exact Hj].
    + apply in_flat_map. exists j. split.
      * apply list_elem_of_In, elem_of_upto, Hrange.
      * apply release_group_In; [lia | exact Hj].
Qed.

(** X7.  The bind groups that a call of [reallocResource] releases are
    exactly those that the old array holds below the previous count [pre]
    (only the one at index 0 in dynamic-offset mode), and only when the
    call grows the allocation.  A group that the array holds at an index
    [>= pre], which a shrink followed by a smaller growth leaves there, is
    not released together with the others when the array is replaced. *)
Theorem reallocResource_releases_below_pre pre cur dyn s s' evs i g :
  reallocResource pre cur dyn s = Some (s', evs) ->
  (In (EvReleaseBindGroup i g) evs <->
   pre < cur /\ 0 < cur /\
   exists groups, bindGroupFishPers s = Some groups /\
     groups !! Z.to_nat i = Some (Some g) /\
     (if dyn then i = 0 else 0 <= i < pre)).
Proof.
  unfold reallocResource. fold (recorded pre cur dyn s).
  destruct (Z.eqb_spec cur 0) as [Hz|Hnz].
  { intros H. inversion H; subst. split; [intros [] | intros (_ & Hc & _); lia]. }
  destruct (Z.geb_spec pre cur) as [Hge|Hlt].
  { intros H. inversion H; subst. split; [intros [] | intros (Hc & _); lia]. }
  pose proof (destoryFishResource_releases (recorded pre cur dyn s) i g) as Hrel.
  destruct (destoryFishResource (recorded pre cur dyn s)) as [s1 evd].
  cbn [snd recorded bindGroupFishPers mEnableDynamicBufferOffset mPreTotalInstance] in Hrel.
  destruct (Z.ltb_spec cur 0) as [Hneg|Hpos]; [discriminate|].
  intros H. inversion H; subst. rewrite in_app_iff. split.
  - intros [Hin|Hin]; [|exfalso; eapply alloc_events_no_release, Hin].
    split; [lia|]. split; [lia|]. apply Hrel, Hin.
  - intros (_ & _ & Hg). left. apply Hrel, Hg.
Qed.

(** *** The indices of the releases *)

(** The bind-group array, when there is one, has an entry for every index
    that [destoryFishResource] will visit when the previous count is [n]. *)
Definition groups_cover (dyn : bool) (n : Z) (s : ContextDawn) : Prop :=
  match bindGroupFishPers s with
  | None => True
  | Some groups =>
      if dyn then (1 <= length groups)%nat else n <= Z.of_nat (length groups)
  end.

Definition out_of_range (e : Event) : bool :=
  match e with EvBindGroupOutOfRange _ => true | _ => false end.

Lemma release_group_in_range groups i :
  0 <= i < Z.of_nat (length groups) ->
  existsb out_of_range (release_group groups i) = false.
Proof.
  intros Hi. unfold release_group.
  destruct (lookup_lt_is_Some_2 groups (Z.to_nat i) ltac:(lia)) as [[g|] ->];
    reflexivity.
Qed.

Lemma destoryFishResource_in_range s :
  groups_cover (mEnableDynamicBufferOffset s) (mPreTotalInstance s) s ->
  existsb out_of_range (snd (destoryFishResource s)) = false.
Proof.
  unfold groups_cover, destoryFishResource. cbn [snd]. intros Hcover.
  rewrite !existsb_app.
  assert (forall b, existsb out_of_range (release_buffer b) = false) as Hrb
    by (intros [b|]; reflexivity).
  rewrite !Hrb.
  assert (existsb out_of_range
            match fishPers s with Some n => [EvDeleteFishPers n] | None => [] end
          = false) as -> by (destruct (fishPers s); reflexivity).
  cbn [orb]. destruct (bindGroupFishPers s) as [groups|]; [|reflexivity].
  destruct (mEnableDynamicBufferOffset s).
  - apply release_group_in_range. lia.
  - assert (forall l, Forall (fun i => 0 <= i < mPreTotalInstance s) l ->
              existsb out_of_range (flat_map (release_group groups) l) = false) as Hall.
    { induction l as [|i l IH]; intros Hl; [reflexivity|].
      apply Forall_cons in Hl as [Hi Hl]. simpl.
      rewrite existsb_app, release_group_in_range by lia. apply IH, Hl. }
    apply Hall, Forall_forall. intros i Hi. apply elem_of_upto, Hi.
Qed.

Lemma alloc_events_in_range cur dyn :
  existsb out_of_range (alloc_events cur dyn) = false.
Proof.
  unfold alloc_events. rewrite existsb_app. cbn [existsb out_of_range orb].
  induction (new_groups _ cur dyn) as [|g gs IH]; [reflexivity | exact IH].
Qed.

(** A call whose [pre] the array covers stays inside the array, and leaves
    an array that covers [cur], the [pre] of the next call. *)
Lemma reallocResource_in_range pre cur dyn s s' evs :
  groups_cover dyn pre s ->
  reallocResource pre cur dyn s = Some (s', evs) ->
  existsb out_of_range evs = false /\ groups_cover dyn cur s'.
Proof.
  intros Hcover. unfold reallocResource. fold (recorded pre cur dyn s).
  assert (cur <= pre \/ cur = 0 -> groups_cover dyn cur (recorded pre cur dyn s)) as Hnoop.
  { intros Hc. unfold groups_cover in *. cbn [recorded bindGroupFishPers].
    destruct (bindGroupFishPers s) as [groups|]; [|exact I].
    destruct dyn; [exact Hcover | lia]. }
  destruct (Z.eqb_spec cur 0) as [Hz|Hnz].
  { intros H. inversion H; subst. split; [reflexivity | apply Hnoop; lia]. }
  destruct (Z.geb_spec pre cur) as [Hge|Hlt].
  { intros H. inversion H; subst. split; [reflexivity | apply Hnoop; lia]. }
  pose proof (destoryFishResource_in_range (recorded pre cur dyn s) Hcover) as Hd.
  destruct (destoryFishResource (recorded pre cur dyn s)) as [s1 evd]. cbn [snd] in Hd.
  destruct (Z.ltb_spec cur 0) as [Hneg|Hpos]; [discriminate|].
  intros H. inversion H; subst. split.
  - rewrite existsb_app, Hd, alloc_events_in_range. reflexivity.
  - unfold groups_cover. cbn [bindGroupFishPers]. rewrite length_map.
    pose proof (length_new_groups
                  (mkBuffer (wrap_int (sizeof_FishPer * cur)) CopyDst_Uniform)
                  cur dyn Hpos) as Hlen.
    destruct dyn; lia.
Qed.

(** *** A frame with asynchronous mapping *)

(** With a request pending, the polling loop is left at the first tick at
    which the backend answers, after exactly one callback. *)
Lemma wait_for_mapping_answered ticks : forall w,
  mappedData (ctx w) = false -> mapPending w = true -> In true ticks ->
  exists ev,
    wait_for_mapping ticks w = (mkWorld (fst (MapWriteCallback (ctx w))) false, ev, true) /\
    forallb is_wait_event ev = true /\ count is_callback ev = 1.
Proof.
  induction ticks as [|fire ticks IH]; intros w Hm Hp Hin; [destruct Hin|].
  simpl. rewrite Hm. unfold WaitABit, DeviceTick. rewrite Hp.
  destruct fire; simpl.
  - rewrite wait_for_mapping_mapped by reflexivity.
    eexists. split; [reflexivity|]. split; reflexivity.
  - destruct Hin as [Hf|Hin]; [discriminate Hf|].
    destruct (IH w Hm Hp Hin) as (ev & -> & Hw & Hc).
    eexists. split; [reflexivity|]. split; [exact Hw|].
    unfold count in *. simpl. exact Hc.
Qed.

(** Without a request, the loop only ticks and sleeps, and is not left. *)
Lemma wait_for_mapping_idle ticks : forall w,
  mappedData (ctx w) = false -> mapPending w = false ->
  wait_for_mapping ticks w
  = (w, flat_map (fun _ => [EvDeviceTick; EvUSleep 100]) ticks, false).
Proof.
  induction ticks as [|fire ticks IH]; intros w Hm Hp; simpl; rewrite Hm.
  - reflexivity.
  - unfold WaitABit, DeviceTick. rewrite Hp, andb_false_r. simpl.
    rewrite (IH w Hm Hp). reflexivity.
Qed.

(** X8.  A frame in draw-per-model mode with asynchronous mapping, entered
    with no command queued and [mappedData] null, and during which the
    backend answers the request: [DoFlush] returns; the frame asks for the
    mapping once, is answered once, and submits once, the render commands
    of the frame followed by the copy from the staging buffer; and it
    leaves the context as it found it, so the next frame starts from the
    same state. *)
Theorem frame_async_round_trip (ticks : list bool) (w : World) :
  mappedData (ctx w) = false ->
  mCommandBuffers (ctx w) = [] ->
  In true ticks ->
  exists ev_wait,
    frame true true ticks w
    = (mkWorld (ctx w) false,
       [EvMapWriteAsync; EvEndPass; EvFinish] ++ ev_wait
       ++ [EvUnmap; EvSubmit [RenderCommands; copy_command (ctx w)];
           EvPresent; EvPollEvents],
       true) /\
    forallb is_wait_event ev_wait = true /\
    count is_callback ev_wait = 1.
Proof.
  intros Hm Hc Hin. unfold frame, updateAllFishData, DoFlush. cbn [ctx mapPending].
  set (w1 := mkWorld (with_commands (ctx w) (mCommandBuffers (ctx w) ++ [RenderCommands])) true).
  destruct (wait_for_mapping_answered ticks w1 Hm eq_refl Hin) as (ev & Hrun & Hw & Hcb).
  rewrite Hrun. exists ev. split; [|split; assumption].
  unfold Flush, MapWriteCallback, w1, copy_command, with_commands, with_mappedData.
  cbn. rewrite Hc. destruct (ctx w) as [fb sb fp bg pre cur dyn cmds md].
  cbn in *. subst cmds md. reflexivity.
Qed.

(** X9.  With asynchronous mapping and no mapping request pending,
    [DoFlush] does not return and submits nothing, whatever the backend
    does and however long it is given: it finishes the encoder and then
    only ticks the device and sleeps. *)
Theorem DoFlush_async_without_request (ticks : list bool) (w : World) :
  mappedData (ctx w) = false ->
  mapPending w = false ->
  DoFlush true ticks w
  = (mkWorld (with_commands (ctx w) (mCommandBuffers (ctx w) ++ [RenderCommands])) false,
     [EvEndPass; EvFinish] ++ flat_map (fun _ => [EvDeviceTick; EvUSleep 100]) ticks,
     false).
Proof.
  intros Hm Hp. unfold DoFlush. rewrite Hp.
  rewrite wait_for_mapping_idle by (try reflexivity; exact Hm). reflexivity.
Qed.

End WithFishPer.

(** *** Concrete runs *)

(** The context as its constructor leaves the members modelled here (the
    three members it leaves unset are given the value 0 / false). *)
Definition fresh : ContextDawn :=
  mkContextDawn None None None None 0 0 false [] false.

(** Growing from nothing to two fish, one bind group per fish. *)
Example reallocResource_grow_two :
  reallocResource Reference.sizeof_FishPer 0 2 false fresh
  = Some (mkContextDawn
            (Some (mkBuffer 512 CopyDst_Uniform)) (Some (mkBuffer 512 MapWrite_CopySrc))
            (Some 2)
            (Some [Some (mkBindGroup (mkBuffer 512 CopyDst_Uniform) 0 256);
                   Some (mkBindGroup (mkBuffer 512 CopyDst_Uniform) 256 256)])
            0 2 false [] false,
          [EvNewFishPers 2; EvNewBindGroupArray 2;
           EvCreateBuffer (mkBuffer 512 CopyDst_Uniform);
           EvCreateBuffer (mkBuffer 512 MapWrite_CopySrc);
           EvMakeBindGroup (mkBindGroup (mkBuffer 512 CopyDst_Uniform) 0 256);
           EvMakeBindGroup (mkBindGroup (mkBuffer 512 CopyDst_Uniform) 256 256)]).
Proof. reflexivity. Qed.

(** The context holding the resources of two fish. *)
Definition two_fish : ContextDawn :=
  mkContextDawn
    (Some (mkBuffer 512 CopyDst_Uniform)) (Some (mkBuffer 512 MapWrite_CopySrc))
    (Some 2)
    (Some [Some (mkBindGroup (mkBuffer 512 CopyDst_Uniform) 0 256);
           Some (mkBindGroup (mkBuffer 512 CopyDst_Uniform) 256 256)])
    0 2 false [] false.

(** Growing from two fish to three releases what the two fish held, in the
    order of [destoryFishResource], and then allocates for three. *)
Example reallocResource_grow_three :
  option_map snd (reallocResource Reference.sizeof_FishPer 2 3 false two_fish)
  = Some [EvReleaseBuffer (mkBuffer 512 CopyDst_Uniform);
          EvReleaseBuffer (mkBuffer 512 MapWrite_CopySrc);
          EvDeleteFishPers 2;
          EvReleaseBindGroup 0 (mkBindGroup (mkBuffer 512 CopyDst_Uniform) 0 256);
          EvReleaseBindGroup 1 (mkBindGroup (mkBuffer 512 CopyDst_Uniform) 256 256);
          EvNewFishPers 3; EvNewBindGroupArray 3;
          EvCreateBuffer (mkBuffer 768 CopyDst_Uniform);
          EvCreateBuffer (mkBuffer 768 MapWrite_CopySrc);
          EvMakeBindGroup (mkBindGroup (mkBuffer 768 CopyDst_Uniform) 0 256);
          EvMakeBindGroup (mkBindGroup (mkBuffer 768 CopyDst_Uniform) 256 256);
          EvMakeBindGroup (mkBindGroup (mkBuffer 768 CopyDst_Uniform) 512 256)].
Proof. reflexivity. Qed.

(** Shrinking keeps everything. *)
Example reallocResource_shrink :
  reallocResource Reference.sizeof_FishPer 2 1 false two_fish
  = Some (recorded 2 1 false two_fish, []).
Proof. reflexivity. Qed.



(** Two frames in draw-per-model mode: the first mapping is answered at the
    third tick, the second at the first. *)
Example frames_trace :
  snd (fst (frames Reference.sizeof_FishPer true true
              [[false; false; true]; [true]] (mkWorld two_fish false)))
  = [EvMapWriteAsync; EvEndPass; EvFinish;
     EvDeviceTick; EvUSleep 100; EvDeviceTick; EvUSleep 100;
     EvDeviceTick; EvMapWriteCallback; EvUSleep 100;
     EvUnmap;
     EvSubmit [RenderCommands;
               CopyBufferToBuffer (Some (mkBuffer 512 MapWrite_CopySrc))
                 (Some (mkBuffer 512 CopyDst_Uniform)) 512];
     EvPresent; EvPollEvents;
     EvMapWriteAsync; EvEndPass; EvFinish;
     EvDeviceTick; EvMapWriteCallback; EvUSleep 100;
     EvUnmap;
     EvSubmit [RenderCommands;
               CopyBufferToBuffer (Some (mkBuffer 512 MapWrite_CopySrc))
                 (Some (mkBuffer 512 CopyDst_Uniform)) 512];
     EvPresent; EvPollEvents].
Proof. reflexivity. Qed.

(** Without a mapping request (not in draw-per-model mode) the loop of
    [DoFlush] is never left, and nothing is submitted. *)
Example frames_no_request :
  frames Reference.sizeof_FishPer true false [[true; true; true]] (mkWorld two_fish false)
  = (mkWorld (with_commands two_fish [RenderCommands]) false,
     [EvEndPass; EvFinish; EvDeviceTick; EvUSleep 100; EvDeviceTick; EvUSleep 100;
      EvDeviceTick; EvUSleep 100],
     false).
Proof. reflexivity. Qed.

Lemma submit_waits_for_callback_witness :
  submit_after_callback false
    (snd (fst (frames Reference.sizeof_FishPer true true
                 [[false; false; true]; [true]] (mkWorld two_fish false)))) = true.
Proof.
  apply (submit_waits_for_callback Reference.sizeof_FishPer true
           [[false; false; true]; [true]] (mkWorld two_fish false)).
  reflexivity.
Defined.

(** The context after three fish were allocated and the count went down
    to one: the array still holds three bind groups. *)
Definition three_then_one : ContextDawn :=
  mkContextDawn
    (Some (mkBuffer 768 CopyDst_Uniform)) (Some (mkBuffer 768 MapWrite_CopySrc))
    (Some 3)
    (Some [Some (mkBindGroup (mkBuffer 768 CopyDst_Uniform) 0 256);
           Some (mkBindGroup (mkBuffer 768 CopyDst_Uniform) 256 256);
           Some (mkBindGroup (mkBuffer 768 CopyDst_Uniform) 512 256)])
    3 1 false [] false.

(** Growing from one fish to two then releases the first of the three
    bind groups only. *)
Example reallocResource_shrink_then_grow :
  option_map (fun r => List.filter is_release (snd r))
    (reallocResource Reference.sizeof_FishPer 1 2 false three_then_one)
  = Some [EvReleaseBuffer (mkBuffer 768 CopyDst_Uniform);
          EvReleaseBuffer (mkBuffer 768 MapWrite_CopySrc);
          EvDeleteFishPers 3;
          EvReleaseBindGroup 0 (mkBindGroup (mkBuffer 768 CopyDst_Uniform) 0 256)].
Proof. reflexivity. Qed.

Lemma reallocResource_releases_below_pre_witness :
  exists s' evs,
    reallocResource Reference.sizeof_FishPer 1 2 false three_then_one = Some (s', evs) /\
    In (EvReleaseBindGroup 0 (mkBindGroup (mkBuffer 768 CopyDst_Uniform) 0 256)) evs /\
    ~ In (EvReleaseBindGroup 2 (mkBindGroup (mkBuffer 768 CopyDst_Uniform) 512 256)) evs.
Proof.
  do 2 eexists. split; [reflexivity|]. split.
  - apply (reallocResource_releases_below_pre Reference.sizeof_FishPer 1 2 false
             three_then_one _ _ 0 _ eq_refl).
    split; [lia|]. split; [lia|]. eexists. split; [reflexivity|].
    split; [reflexivity | lia].
  - intros Hin.
    apply (reallocResource_releases_below_pre Reference.sizeof_FishPer 1 2 false
             three_then_one _ _ 2 _ eq_refl) in Hin.
    destruct Hin as (_ & _ & groups & _ & _ & Hrange). lia.
Defined.

Lemma frame_async_round_trip_witness :
  exists ev_wait,
    frame Reference.sizeof_FishPer true true [false; true] (mkWorld two_fish false)
    = (mkWorld two_fish false,
       [EvMapWriteAsync; EvEndPass; EvFinish] ++ ev_wait
       ++ [EvUnmap;
           EvSubmit [RenderCommands; copy_command Reference.sizeof_FishPer two_fish];
           EvPresent; EvPollEvents],
       true) /\
    forallb is_wait_event ev_wait = true /\
    count is_callback ev_wait = 1.
Proof.
  apply (frame_async_round_trip Reference.sizeof_FishPer [false; true]
           (mkWorld two_fish false)).
  - reflexivity.
  - reflexivity.
  - right. left. reflexivity.
Defined.

Lemma DoFlush_async_without_request_witness :
  DoFlush Reference.sizeof_FishPer true [true; false; true] (mkWorld two_fish false)
  = (mkWorld (with_commands two_fish [RenderCommands]) false,
     [EvEndPass; EvFinish; EvDeviceTick; EvUSleep 100; EvDeviceTick; EvUSleep 100;
      EvDeviceTick; EvUSleep 100],
     false).
Proof.
  exact (DoFlush_async_without_request Reference.sizeof_FishPer [true; false; true]
           (mkWorld two_fish false) eq_refl eq_refl).
Defined.

End ContextDawn.

(** ** Bytes of an [int] array *)

Module CMem.

(** An [int] takes four bytes on every platform the program builds for;
    the bytes are written least significant first. *)
Definition sizeof_int : nat := 4.

Definition int_bytes (x : Z) : list Z :=
  [x mod 256; (x / 256) mod 256; (x / 65536) mod 256; (x / 16777216) mod 256].

Definition bytes_int (b0 b1 b2 b3 : Z) : Z :=
  wrap_int (b0 + 256 * b1 + 65536 * b2 + 16777216 * b3).

Definition encode (a : list Z) : list Z := flat_map int_bytes a.

Fixpoint decode (bytes : list Z) : list Z :=
  match bytes with
  | b0 :: b1 :: b2 :: b3 :: rest => bytes_int b0 b1 b2 b3 :: decode rest
  | _ => []
  end.

(** [memset(p, c, n)] over the bytes of an object of at least [n] bytes. *)
Definition memset (bytes : list Z) (c : Z) (n : nat) : list Z :=
  repeat c n ++ drop n bytes.

Lemma bytes_int_int_bytes x :
  in_int x ->
  bytes_int (x mod 256) ((x / 256) mod 256) ((x / 65536) mod 256)
            ((x / 16777216) mod 256) = x.
Proof.
  unfold in_int, INT_MIN, INT_MAX, bytes_int, wrap_int. intros Hx.
  Z.to_euclidean_division_equations. lia.
Qed.

Lemma decode_encode a : Forall in_int a -> decode (encode a) = a.
Proof.
  induction 1 as [|x a Hx Ha IH]; [reflexivity|].
  simpl. rewrite bytes_int_int_bytes by exact Hx. rewrite IH. reflexivity.
Qed.

End CMem.

(** ** Aquarium: construction, the behaviour queue and the frame step *)

Module Aquarium.
Import CArray.

(** The toggles that Aquarium.cpp tests or sets. *)
Inductive TOGGLE :=
| ENABLEMSAAx4
| ENABLEINSTANCEDDRAWS
| ENABLEDYNAMICBUFFEROFFSET
| DISCRETEGPU
| INTEGRATEDGPU
| ENABLEFULLSCREENMODE
| PRINTLOG
| BUFFERMAPPINGASYNC
| TURNOFFVSYNC
| AUTOSTOP
| ENABLEALPHABLENDING
| SIMULATINGFISHCOMEANDGO
| DISABLED3D12RENDERPASS
| DISABLEDAWNVALIDATION
| DISABLECONTROLPANEL
| DRAWPERMODEL.

(** [std::bitset<TOGGLEMAX>], read with [test]. *)
Definition Toggles := TOGGLE -> bool.

(** One entry of the scenario: [new Behavior(frame, op, count)]. *)
Record Behavior := mkBehavior { frame : Z; op : string; count : Z }.

Definition setFrame (b : Behavior) (f : Z) : Behavior :=
  mkBehavior f (op b) (count b).

(** The members of [Aquarium] (and the two fields of the global [g]) that
    the population logic reads or writes.  [mFishBehavior] is the queue,
    front first.  [g_start] and [g_then] hold the clock readings from
    which the source computes its seconds. *)
Record Aquarium := mkAquarium {
  mCurFishCount : Z;
  mPreFishCount : Z;
  fishCount : list Z;
  mFishBehavior : list Behavior;
  toggleBitset : Toggles;
  g_start : Z;
  g_then : Z;
  mContext : ContextDawn.ContextDawn
}.

(** What a frame does, for the record. *)
Inductive Action :=
| ActPop (b : Behavior)                     (* mFishBehavior.pop() *)
| ActPrintFishCount (n : Z)                 (* std::cout << "Fish count" << n *)
| ActCalculateFishCount (total : Z)
| ActReallocResource (pre cur : Z) (dyn : bool) (evs : list ContextDawn.Event)
| ActResetFpsTime (now : Z).

(** *** Construction *)

(** [Aquarium::Aquarium()].  [storage] is what the five ints of [fishCount]
    hold before the constructor runs: the member has no initialiser, so
    for an object that is not static this is whatever the memory held.
    The constructor's only write to it is [memset(fishCount, 0, 5)]. *)
Definition new (storage : list Z) : Aquarium :=
  mkAquarium 500 0
    (CMem.decode (CMem.memset (CMem.encode storage) 0 5))
    [] (fun _ => false) 0 0 ContextDawn.fresh.

Section WithDeclarations.

Variable h : Header.Declarations.

(** *** Start-up *)

(** The part of [Aquarium::init] that bears on the population.  The
    parsing of the command line is summed up by its results: the value of
    [--num-fish] when given, and the toggles that are set once the options
    have been checked against the backend.  [behaviors] is the content of
    the scenario file, in file order; [now] the clock at [resetFpsTime].
    [None] stands for the exception of a failed allocation. *)
Definition init (num_fish : option Z) (toggles : Toggles)
    (behaviors : list Behavior) (now : Z) (a : Aquarium) : option Aquarium :=
  let cur := match num_fish with Some n => n | None => mCurFishCount a end in
  (* calculateFishCount(); *)
  let counts := Header.calculateFishCount h cur (fishCount a) in
  (* mContext->initGeneralResources(this); *)
  match ContextDawn.reallocResource (Header.sizeof_FishPer h)
          (mPreFishCount a) cur (toggles ENABLEDYNAMICBUFFEROFFSET) (mContext a) with
  | None => None
  | Some (c, _) =>
      (* ... stagingBuffer = createBuffer(sizeof(FishPer) * cur, ...); *)
      let staging :=
        ContextDawn.mkBuffer (ContextDawn.wrap_u32 (Header.sizeof_FishPer h * cur))
          ContextDawn.MapWrite_CopySrc in
      let c' :=
        ContextDawn.mkContextDawn (ContextDawn.fishPersBuffer c) (Some staging)
          (ContextDawn.fishPers c) (ContextDawn.bindGroupFishPers c)
          (ContextDawn.mPreTotalInstance c) (ContextDawn.mCurTotalInstance c)
          (ContextDawn.mEnableDynamicBufferOffset c)
          (ContextDawn.mCommandBuffers c) (ContextDawn.mappedData c) in
      (* mPreFishCount = mCurFishCount; loadReource(); resetFpsTime(); *)
      Some (mkAquarium cur cur counts
              (if toggles SIMULATINGFISHCOMEANDGO then behaviors else [])
              toggles now now c')
  end.

(** *** The frame step *)

(** [mCurFishCount += count] or [-= count]. *)
Definition apply_behavior (cur : Z) (behave : Behavior) : Z :=
  if String.eqb (op behave) "+" then int_add cur (count behave)
  else int_sub cur (count behave).

(** The scripted population change at the head of [render]. *)
Definition behavior_step (a : Aquarium) : Aquarium * list Action :=
  if toggleBitset a SIMULATINGFISHCOMEANDGO then
    match mFishBehavior a with
    | [] => (a, [])
    | behave :: rest =>
        if frame behave =? 0 then
          let cur := apply_behavior (mCurFishCount a) behave in
          (mkAquarium cur (mPreFishCount a) (fishCount a) rest
             (toggleBitset a) (g_start a) (g_then a) (mContext a),
           [ActPop behave; ActPrintFishCount cur])
        else
          (mkAquarium (mCurFishCount a) (mPreFishCount a) (fishCount a)
             (setFrame behave (int_sub (frame behave) 1) :: rest)
             (toggleBitset a) (g_start a) (g_then a) (mContext a),
           [])
    end
  else (a, []).

(** The reaction of [render] to a changed total; [now] is the clock read by
    [resetFpsTime].  [None] stands for the exception of a failed
    allocation inside [reallocResource]. *)
Definition population_step (now : Z) (a : Aquarium)
  : option (Aquarium * list Action) :=
  if negb (toggleBitset a ENABLEINSTANCEDDRAWS) then
    if negb (mCurFishCount a =? mPreFishCount a) then
      let counts := Header.calculateFishCount h (mCurFishCount a) (fishCount a) in
      let enableDynamicBufferOffset := toggleBitset a ENABLEDYNAMICBUFFEROFFSET in
      match ContextDawn.reallocResource (Header.sizeof_FishPer h)
              (mPreFishCount a) (mCurFishCount a) enableDynamicBufferOffset
              (mContext a) with
      | None => None
      | Some (c, evs) =>
          Some (mkAquarium (mCurFishCount a) (mCurFishCount a) counts
                  (mFishBehavior a) (toggleBitset a) now now c,
                [ActCalculateFishCount (mCurFishCount a);
                 ActReallocResource (mPreFishCount a) (mCurFishCount a)
                   enableDynamicBufferOffset evs;
                 ActResetFpsTime now])
      end
    else Some (a, [])
  else Some (a, []).

(** [getElapsedTime], for the one thing it writes: [g.then = now]. *)
Definition tick_clock (now : Z) (a : Aquarium) : Aquarium :=
  mkAquarium (mCurFishCount a) (mPreFishCount a) (fishCount a)
    (mFishBehavior a) (toggleBitset a) (g_start a) now (mContext a).

(** [Aquarium::render] up to the call of [updateAndDraw]: [now_frame] is
    the clock read by [updateGlobalUniforms], [now_reset] the one read by
    [resetFpsTime] when it is called. *)
Definition render (now_frame now_reset : Z) (a : Aquarium)
  : option (Aquarium * list Action) :=
  let a1 := tick_clock now_frame a in
  let '(a2, log2) := behavior_step a1 in
  match population_step now_reset a2 with
  | None => None
  | Some (a3, log3) => Some (a3, log2 ++ log3)
  end.

(** Frame after frame, with the clock readings of each. *)
Fixpoint render_frames (clock : list (Z * Z)) (a : Aquarium)
  : option (Aquarium * list Action) :=
  match clock with
  | [] => Some (a, [])
  | (now_frame, now_reset) :: clock' =>
      match render now_frame now_reset a with
      | None => None
      | Some (a1, log1) =>
          match render_frames clock' a1 with
          | None => None
          | Some (a2, log2) => Some (a2, log1 ++ log2)
          end
      end
  end.

(** *** The batched drawing pass of [updateAndDraw] *)

Definition fishBegin (a : Aquarium) : Z :=
  if toggleBitset a ENABLEINSTANCEDDRAWS
  then Header.MODELSMALLFISHAINSTANCEDDRAWS h else Header.MODELSMALLFISHA h.

Definition fishEnd (a : Aquarium) : Z :=
  if toggleBitset a ENABLEINSTANCEDDRAWS
  then Header.MODELBIGFISHBINSTANCEDDRAWS h else Header.MODELBIGFISHB h.

(** The body of the loop at [i]: the index with which [mAquariumModels] is
    read, unless the iteration is skipped. *)
Definition draw_access (a : Aquarium) (i : Z) : list Z :=
  if (i >=? Header.MODELSMALLFISHA h) && ((i <? fishBegin a) || (i >? fishEnd a))
  then [] else [i].

(** The indices with which the pass reads [mAquariumModels], in order:
    [for (int i = 0; i <= MODELNAME::MODELMAX; ++i)]. *)
Definition batched_draw_accesses (a : Aquarium) : list Z :=
  if toggleBitset a DRAWPERMODEL
  then flat_map (draw_access a) (upto (Header.MODELMAX h + 1))
  else [].

(** *** The behaviour queue *)

(** [n] frames of the scripted population change alone. *)
Fixpoint behavior_steps (n : nat) (a : Aquarium) : Aquarium * list Action :=
  match n with
  | O => (a, [])
  | S n' =>
      let '(a1, log1) := behavior_step a in
      let '(a2, log2) := behavior_steps n' a1 in
      (a2, log1 ++ log2)
  end.

(** The events popped in a log, in the order of the pops. *)
Definition popped (log : list Action) : list Behavior :=
  flat_map (fun x => match x with ActPop b => [b] | _ => [] end) log.











(** *** The reaction to a changed total *)

Lemma reallocResource_returns sz pre cur dyn c :
  ~ (pre < cur < 0) ->
  exists c' evs, ContextDawn.reallocResource sz pre cur dyn c = Some (c', evs).
Proof.
  intros Hok. unfold ContextDawn.reallocResource.
  destruct (cur =? 0); [eauto|].
  destruct (Z.geb_spec pre cur); [eauto|].
  destruct (ContextDawn.destoryFishResource _) as [c1 evd].
  assert ((cur <? 0) = false) as -> by lia. eauto.
Qed.

(** What [behavior_step] leaves alone. *)
Lemma behavior_step_frame a :
  let a' := fst (behavior_step a) in
  mPreFishCount a' = mPreFishCount a /\ fishCount a' = fishCount a /\
  toggleBitset a' = toggleBitset a /\ g_start a' = g_start a /\
  g_then a' = g_then a /\ mContext a' = mContext a.
Proof.
  unfold behavior_step. destruct (toggleBitset a SIMULATINGFISHCOMEANDGO); [|repeat split].
  destruct (mFishBehavior a) as [|b rest]; [repeat split|].
  destruct (frame b =? 0); repeat split.
Qed.

(** The reaction for any setting of the toggles.  Let [cur] be the total
    after the scripted change of this frame and [pre] the realized count.
    - With instanced drawing not enabled and [cur <> pre] (and unless
      [pre < cur < 0], where allocating the new record array throws), the
      frame recomputes the per-species counts for [cur], calls
      [reallocResource pre cur], records [cur] as the realized count and
      sets the timing baseline [g.start], [g.then] to the clock.
    - With [cur = pre], and also whenever instanced drawing is enabled,
      none of the four happens: the counts, the realized count, the context
      and the baseline [g.start] are as before. *)
Lemma render_reacts_to_change now_frame now_reset a :
  let a2 := fst (behavior_step (tick_clock now_frame a)) in
  let log2 := snd (behavior_step (tick_clock now_frame a)) in
  let cur := mCurFishCount a2 in
  let pre := mPreFishCount a in
  let dyn := toggleBitset a ENABLEDYNAMICBUFFEROFFSET in
  (toggleBitset a ENABLEINSTANCEDDRAWS = false ->
   cur <> pre -> ~ (pre < cur < 0) ->
   exists c evs,
     ContextDawn.reallocResource (Header.sizeof_FishPer h) pre cur dyn (mContext a)
       = Some (c, evs) /\
     render now_frame now_reset a
       = Some (mkAquarium cur cur (Header.calculateFishCount h cur (fishCount a))
                 (mFishBehavior a2) (toggleBitset a) now_reset now_reset c,
               log2 ++ [ActCalculateFishCount cur;
                        ActReallocResource pre cur dyn evs;
                        ActResetFpsTime now_reset])) /\
  (toggleBitset a ENABLEINSTANCEDDRAWS = true \/ cur = pre ->
   render now_frame now_reset a = Some (a2, log2) /\
   fishCount a2 = fishCount a /\ mPreFishCount a2 = mPreFishCount a /\
   mContext a2 = mContext a /\ g_start a2 = g_start a).
Proof.
  pose proof (behavior_step_frame (tick_clock now_frame a)) as Hfr.
  unfold render.
  destruct (behavior_step (tick_clock now_frame a)) as [a2 log2].
  cbn [fst snd tick_clock mPreFishCount fishCount toggleBitset g_start g_then
       mContext] in Hfr |- *.
  destruct Hfr as (Hpre & Hfc & Htog & Hstart & Hthen & Hctx).
  unfold population_step. rewrite Htog, Hpre, Hfc, Hctx.
  split.
  - intros Hinst Hne Hok. rewrite Hinst. cbn [negb].
    destruct (reallocResource_returns (Header.sizeof_FishPer h) (mPreFishCount a)
                (mCurFishCount a2) (toggleBitset a ENABLEDYNAMICBUFFEROFFSET)
                (mContext a) Hok) as (c & evs & Hre).
    exists c, evs. split; [exact Hre|].
    assert ((mCurFishCount a2 =? mPreFishCount a)%Z = false) as -> by lia.
    cbn [negb]. rewrite Hre. reflexivity.
  - intros [Hinst|Heq].
    + rewrite Hinst. cbn [negb]. rewrite app_nil_r. repeat split; assumption.
    + assert ((mCurFishCount a2 =? mPreFishCount a)%Z = true) as -> by lia.
      destruct (negb (toggleBitset a ENABLEINSTANCEDDRAWS)); cbn [negb];
        rewrite app_nil_r; repeat split; assumption.
Qed.

(** *** The sign of the total *)

(** The signed change an event asks for. *)
Definition delta (b : Behavior) : Z :=
  if String.eqb (op b) "+" then count b else - count b.

(** Every event of the queue, applied in order from [cur], leaves a total
    that is not negative (and is an [int]). *)
Fixpoint affordable (cur : Z) (q : list Behavior) : Prop :=
  match q with
  | [] => True
  | b :: q' => 0 <= cur + delta b <= INT_MAX /\ affordable (cur + delta b) q'
  end.

Lemma apply_behavior_delta cur b :
  in_int (cur + delta b) -> apply_behavior cur b = cur + delta b.
Proof.
  unfold apply_behavior, delta, int_add, int_sub.
  destruct (String.eqb (op b) "+"); intros Hr.
  - apply wrap_int_id, Hr.
  - rewrite wrap_int_id; [lia|]. unfold in_int in *. lia.
Qed.

Lemma behavior_step_nonneg a :
  0 <= mCurFishCount a <= INT_MAX ->
  affordable (mCurFishCount a) (mFishBehavior a) ->
  let a' := fst (behavior_step a) in
  0 <= mCurFishCount a' <= INT_MAX /\
  affordable (mCurFishCount a') (mFishBehavior a').
Proof.
  intros Hc Ha. unfold behavior_step.
  destruct (toggleBitset a SIMULATINGFISHCOMEANDGO); [|split; assumption].
  destruct (mFishBehavior a) as [|b rest] eqn:Hq; simpl.
  - rewrite Hq. split; assumption.
  - destruct Ha as [Hb Hrest]. destruct (frame b =? 0); simpl.
    + rewrite apply_behavior_delta; [split; assumption|].
      unfold in_int, INT_MIN, INT_MAX in *. lia.
    + split; [exact Hc|]. split; assumption.
Qed.

Lemma render_nonneg now_frame now_reset a :
  0 <= mCurFishCount a <= INT_MAX ->
  affordable (mCurFishCount a) (mFishBehavior a) ->
  exists a' log,
    render now_frame now_reset a = Some (a', log) /\
    0 <= mCurFishCount a' <= INT_MAX /\
    affordable (mCurFishCount a') (mFishBehavior a').
Proof.
  intros Hc Ha.
  pose proof (behavior_step_nonneg (tick_clock now_frame a) Hc Ha) as Hstep.
  unfold render. destruct (behavior_step (tick_clock now_frame a)) as [a2 log2].
  simpl in Hstep. destruct Hstep as [Hc2 Ha2].
  unfold population_step.
  destruct (negb (toggleBitset a2 ENABLEINSTANCEDDRAWS)); [|eauto].
  destruct (negb (mCurFishCount a2 =? mPreFishCount a2)); [|eauto].
  destruct (reallocResource_returns (Header.sizeof_FishPer h) (mPreFishCount a2)
              (mCurFishCount a2) (toggleBitset a2 ENABLEDYNAMICBUFFEROFFSET)
              (mContext a2) ltac:(lia)) as (c & evs & ->).
  eauto.
Qed.

Lemma render_frames_nonneg clock : forall a,
  0 <= mCurFishCount a <= INT_MAX ->
  affordable (mCurFishCount a) (mFishBehavior a) ->
  exists a' log,
    render_frames clock a = Some (a', log) /\ 0 <= mCurFishCount a' <= INT_MAX.
Proof.
  induction clock as [|[nf nr] clock IH]; intros a Hc Ha; simpl.
  - eauto.
  - destruct (render_nonneg nf nr a Hc Ha) as (a1 & log1 & -> & Hc1 & Ha1).
    destruct (IH a1 Hc1 Ha1) as (a2 & log2 & -> & Hc2). eauto.
Qed.

(** C6, as the code has it.  The total is an [int] that nothing clamps.
    It is [>= 0] in every state reached from start-up by frames, provided
    the configured total (500 unless [--num-fish] gives another) is not
    negative and every event of the scenario, applied in order, leaves a
    total that is not negative: a '+' event adds its count, any other event
    subtracts it. *)
Theorem population_nonnegative storage num_fish toggles behaviors now clock :
  let total := match num_fish with Some n => n | None => 500 end in
  0 <= total <= INT_MAX ->
  affordable total behaviors ->
  exists a0 a log,
    init num_fish toggles behaviors now (new storage) = Some a0 /\
    mCurFishCount a0 = total /\
    render_frames clock a0 = Some (a, log) /\
    0 <= mCurFishCount a.
Proof.
  intros total Ht Haff. unfold init. cbn [new mCurFishCount mPreFishCount mContext].
  fold total.
  destruct (reallocResource_returns (Header.sizeof_FishPer h) 0 total
              (toggles ENABLEDYNAMICBUFFEROFFSET) ContextDawn.fresh ltac:(lia))
    as (c & evs & ->).
  eexists. 
  match goal with |- exists a log, Some ?a0 = _ /\ _ =>
    destruct (render_frames_nonneg clock a0) as (a & log & Hrun & Hc)
  end.
  - exact Ht.
  - cbn [mCurFishCount mFishBehavior].
    destruct (toggles SIMULATINGFISHCOMEANDGO); [exact Haff | exact I].
  - exists a, log. repeat split; [exact Hrun | lia].
Qed.

(** *** The batched drawing pass *)

(** C9.  In the batched drawing pass, every index with which
    [mAquariumModels] is read is a model index below [MODELMAX]: the loop
    runs up to and including [MODELMAX], and that last turn is skipped,
    since [MODELMAX] lies past the last fish model.  The enumerators are
    those of Aquarium.h: the fish models come at or after the first fish
    model and before [MODELMAX]. *)
Theorem batched_draw_in_bounds (a : Aquarium) (i : Z) :
  Header.MODELSMALLFISHA h <= Header.MODELMAX h ->
  Header.MODELBIGFISHB h < Header.MODELMAX h ->
  Header.MODELBIGFISHBINSTANCEDDRAWS h < Header.MODELMAX h ->
  In i (batched_draw_accesses a) ->
  0 <= i < Header.MODELMAX h.
Proof.
  intros Hfirst Hlast Hlast' Hin. unfold batched_draw_accesses in Hin.
  destruct (toggleBitset a DRAWPERMODEL); [|destruct Hin].
  apply in_flat_map in Hin as (j & Hj & Hi).
  apply list_elem_of_In, elem_of_upto in Hj.
  unfold draw_access, fishBegin, fishEnd in Hi.
  destruct (toggleBitset a ENABLEINSTANCEDDRAWS);
    match type of Hi with In _ (if ?c then _ else _) => destruct c eqn:Hc end;
    try destruct Hi as [<-|[]]; try destruct Hi; lia.
Qed.

(** *** The allocation along a run *)

(** The declarations of Aquarium.h as the planner needs them, for an
    array of [n] counts: every species has a class below [FISHENUM::MAX],
    one species is of the class that takes the remainder, each entry of
    the array belongs to one species, and the two fixed MEDIUM counts are
    not negative. *)
Definition well_formed (n : nat) : Prop :=
  0 <= Header.g_numFishLeftSmall h /\ 0 <= Header.g_numFishLeftBig h /\
  Forall (fun f => 0 <= Planner.type f < Header.MAX h) (Header.fishTable h) /\
  Exists (Planner.takes_rest (Header.BIG h) (Header.MEDIUM h)) (Header.fishTable h) /\
  map (Planner.slot (Header.MODELSMALLFISHA h)) (Header.fishTable h)
    ≡ₚ map Z.of_nat (seq 0 n).

Lemma calculateFishCount_well_formed T fc :
  well_formed (length fc) -> 0 <= T <= INT_MAX ->
  length (Header.calculateFishCount h T fc) = length fc /\
  Forall (fun c => 0 <= c) (Header.calculateFishCount h T fc) /\
  Zsum (Header.calculateFishCount h T fc) = T.
Proof.
  intros (Hs & Hb & Hcls & Hrest & Hslots) HT. unfold Header.calculateFishCount.
  destruct (Planner.calculateFishCount_counts (Header.BIG h) (Header.MEDIUM h)
              (Header.MAX h) (Header.MODELSMALLFISHA h) (Header.fishTable h)
              (Header.g_numFishSmall h) (Header.g_numFishMedium h)
              (Header.g_numFishBig h) (Header.g_numFishLeftSmall h)
              (Header.g_numFishLeftBig h) T fc Hs Hb Hcls Hrest Hslots HT)
    as (Hlen & Hpos & Hsum).
  split; [exact Hlen|]. split; [|exact Hsum].
  apply Forall_lookup. intros k c Hk.
  assert (k < length fc)%nat as Hlt by (rewrite <- Hlen; eapply lookup_lt_Some, Hk).
  specialize (Hpos k Hlt). unfold load in Hpos. rewrite Nat2Z.id, Hk in Hpos.
  assert ((0 <=? Z.of_nat k) = true) as Hge by lia. rewrite Hge in Hpos. exact Hpos.
Qed.

(** The state between two frames when instanced drawing is off: the
    realized count is the total, and the counts are those of the total. *)
Definition settled (n : nat) (a : Aquarium) : Prop :=
  toggleBitset a ENABLEINSTANCEDDRAWS = false /\
  0 <= mCurFishCount a <= INT_MAX /\
  affordable (mCurFishCount a) (mFishBehavior a) /\
  mPreFishCount a = mCurFishCount a /\
  length (fishCount a) = n /\
  Forall (fun c => 0 <= c) (fishCount a) /\
  Zsum (fishCount a) = mCurFishCount a.

Lemma render_settled n now_frame now_reset a :
  well_formed n -> settled n a ->
  exists a' log, render now_frame now_reset a = Some (a', log) /\ settled n a'.
Proof.
  intros Hwf (Hinst & Hc & Haff & Hpre & Hlen & Hpos & Hsum).
  pose proof (behavior_step_nonneg (tick_clock now_frame a) Hc Haff) as Hstep.
  pose proof (behavior_step_frame (tick_clock now_frame a)) as Hfr.
  unfold render. destruct (behavior_step (tick_clock now_frame a)) as [a2 log2].
  cbn [fst snd tick_clock mPreFishCount fishCount toggleBitset g_start g_then
       mContext] in Hstep, Hfr.
  destruct Hstep as [Hc2 Haff2]. destruct Hfr as (Hpre2 & Hfc2 & Htog2 & _ & _ & _).
  unfold population_step. rewrite Htog2, Hinst. cbn [negb].
  destruct (Z.eqb_spec (mCurFishCount a2) (mPreFishCount a2)) as [Heq|Hne]; cbn [negb].
  - eexists _, _. split; [reflexivity|]. unfold settled.
    rewrite Htog2, Hfc2. repeat split; try assumption; lia.
  - destruct (reallocResource_returns (Header.sizeof_FishPer h) (mPreFishCount a2)
                (mCurFishCount a2) (toggleBitset a ENABLEDYNAMICBUFFEROFFSET)
                (mContext a2) ltac:(lia)) as (c & evs & ->).
    eexists _, _. split; [reflexivity|]. unfold settled.
    cbn [toggleBitset mCurFishCount mPreFishCount fishCount mFishBehavior].
    rewrite Hfc2. subst n.
    destruct (calculateFishCount_well_formed (mCurFishCount a2) (fishCount a) Hwf Hc2)
      as (Hl & Hp & Hs).
    repeat split; try assumption; lia.
Qed.

Lemma render_frames_settled n clock : forall a,
  well_formed n -> settled n a ->
  exists a' log, render_frames clock a = Some (a', log) /\ settled n a'.
Proof.
  induction clock as [|[nf nr] clock IH]; intros a Hwf Hs; simpl.
  - eauto.
  - destruct (render_settled n nf nr a Hwf Hs) as (a1 & log1 & -> & Hs1).
    destruct (IH a1 Hwf Hs1) as (a2 & log2 & -> & Hs2). eauto.
Qed.

(** X10.  With instanced drawing off, in every state that start-up and
    any number of frames reach, the per-species counts are those of the
    current total: they are not negative and add up to the total, which
    is also the realized count.  The declarations are those of Aquarium.h;
    the configured total is not negative and the scenario never asks for
    more fish than there are. *)
Theorem render_frames_counts_total num_fish toggles behaviors now clock a0 :
  let total := match num_fish with Some n => n | None => mCurFishCount a0 end in
  well_formed (length (fishCount a0)) ->
  toggles ENABLEINSTANCEDDRAWS = false ->
  0 <= total <= INT_MAX ->
  affordable total behaviors ->
  exists a1 a log,
    init num_fish toggles behaviors now a0 = Some a1 /\
    render_frames clock a1 = Some (a, log) /\
    mPreFishCount a = mCurFishCount a /\
    length (fishCount a) = length (fishCount a0) /\
    Forall (fun c => 0 <= c) (fishCount a) /\
    Zsum (fishCount a) = mCurFishCount a.
Proof.
  intros total Hwf Hinst Ht Haff. unfold init. fold total.
  destruct (reallocResource_returns (Header.sizeof_FishPer h) (mPreFishCount a0) total
              (toggles ENABLEDYNAMICBUFFEROFFSET) (mContext a0) ltac:(lia))
    as (c & evs & ->).
  eexists.
  match goal with |- exists a log, Some ?a1 = _ /\ _ =>
    destruct (render_frames_settled (length (fishCount a0)) clock a1 Hwf)
      as (a & log & Hrun & Hs)
  end.
  - destruct (calculateFishCount_well_formed total (fishCount a0) Hwf Ht)
      as (Hl & Hp & Hs).
    unfold settled. cbn [toggleBitset mCurFishCount mPreFishCount fishCount mFishBehavior].
    repeat split; try assumption; try lia.
    destruct (toggles SIMULATINGFISHCOMEANDGO); [exact Haff | exact I].
  - destruct Hs as (_ & _ & _ & Hpre & Hlen & Hpos & Hsum).
    exists a, log. repeat split; assumption.
Qed.

(** *** The bind-group array along a run *)

(** The backend events of the reallocations of a log. *)
Definition context_events (log : list Action) : list ContextDawn.Event :=
  flat_map (fun x => match x with
                     | ActReallocResource _ _ _ evs => evs
                     | _ => []
                     end) log.

Definition covered (a : Aquarium) : Prop :=
  ContextDawn.groups_cover (toggleBitset a ENABLEDYNAMICBUFFEROFFSET)
    (mPreFishCount a) (mContext a).

Lemma context_events_app l1 l2 :
  context_events (l1 ++ l2) = context_events l1 ++ context_events l2.
Proof. unfold context_events. apply flat_map_app. Qed.

Lemma behavior_step_context_events a : context_events (snd (behavior_step a)) = [].
Proof.
  unfold behavior_step. destruct (toggleBitset a SIMULATINGFISHCOMEANDGO); [|reflexivity].
  destruct (mFishBehavior a) as [|b rest]; [reflexivity|].
  destruct (frame b =? 0); reflexivity.
Qed.

Lemma render_covered now_frame now_reset a a' log :
  covered a -> render now_frame now_reset a = Some (a', log) ->
  covered a' /\ existsb ContextDawn.out_of_range (context_events log) = false.
Proof.
  intros Hcov. unfold render.
  pose proof (behavior_step_frame (tick_clock now_frame a)) as Hfr.
  pose proof (behavior_step_context_events (tick_clock now_frame a)) as Hev.
  destruct (behavior_step (tick_clock now_frame a)) as [a2 log2].
  cbn [fst snd tick_clock mPreFishCount fishCount toggleBitset g_start g_then
       mContext] in Hfr, Hev.
  destruct Hfr as (Hpre2 & _ & Htog2 & _ & _ & Hctx2).
  assert (covered a2) as Hcov2 by (unfold covered; rewrite Htog2, Hpre2, Hctx2; exact Hcov).
  unfold population_step.
  destruct (negb (toggleBitset a2 ENABLEINSTANCEDDRAWS)).
  2:{ intros H. inversion H; subst. rewrite context_events_app, Hev. auto. }
  destruct (negb (mCurFishCount a2 =? mPreFishCount a2)).
  2:{ intros H. inversion H; subst. rewrite context_events_app, Hev. auto. }
  destruct (ContextDawn.reallocResource _ _ _ _ _) as [[c evs]|] eqn:Hre; [|discriminate].
  destruct (ContextDawn.reallocResource_in_range _ _ _ _ _ _ _ Hcov2 Hre) as [Hin Hcov3].
  intros H. inversion H; subst. split; [exact Hcov3|].
  rewrite context_events_app, Hev. cbn. rewrite app_nil_r. exact Hin.
Qed.

Lemma render_frames_covered clock : forall a a' log,
  covered a -> render_frames clock a = Some (a', log) ->
  existsb ContextDawn.out_of_range (context_events log) = false.
Proof.
  induction clock as [|[nf nr] clock IH]; intros a a' log Hcov; simpl.
  - intros H. inversion H. reflexivity.
  - destruct (render nf nr a) as [[a1 log1]|] eqn:Hr; [|discriminate].
    destruct (render_covered nf nr a a1 log1 Hcov Hr) as [Hcov1 Hin1].
    destruct (render_frames clock a1) as [[a2 log2]|] eqn:Hrun; [|discriminate].
    intros H. inversion H; subst.
    rewrite context_events_app, existsb_app, Hin1.
    exact (IH a1 a' log2 Hcov1 Hrun).
Qed.

(** X11.  From a context that holds no bind-group array (as its
    constructor leaves it), start-up and any number of frames never index
    the bind-group array outside its bounds: each reallocation releases
    the groups below the realized count, and the array has at least that
    many entries whenever it is replaced. *)
Theorem render_frames_groups_in_range num_fish toggles behaviors now clock a0 a1 a log :
  ContextDawn.bindGroupFishPers (mContext a0) = None ->
  init num_fish toggles behaviors now a0 = Some a1 ->
  render_frames clock a1 = Some (a, log) ->
  existsb ContextDawn.out_of_range (context_events log) = false.
Proof.
  intros Hnone Hinit Hrun. unfold init in Hinit.
  destruct (ContextDawn.reallocResource _ _ _ _ _) as [[c evs]|] eqn:Hre; [|discriminate].
  assert (ContextDawn.groups_cover (toggles ENABLEDYNAMICBUFFEROFFSET)
            (mPreFishCount a0) (mContext a0)) as Hcov0.
  { unfold ContextDawn.groups_cover. rewrite Hnone. exact I. }
  destruct (ContextDawn.reallocResource_in_range _ _ _ _ _ _ _ Hcov0 Hre) as [_ Hcov].
  inversion Hinit; subst. eapply render_frames_covered; [|exact Hrun].
  exact Hcov.
Qed.

(** *** The fish loop of [updateAndDraw] *)

(** The calls that the loop makes on the models. *)
Inductive ModelCall :=
| CallPrepareForDraw (model : Z)
| CallUpdateFishPerUniforms (model index : Z)
| CallUpdatePerInstanceUniforms (model : Z)
| CallDraw (model : Z).

(** The body of the inner loop for fish [ii] of model [i]. *)
Definition fish_turn (a : Aquarium) (i ii : Z) : list ModelCall :=
  CallUpdateFishPerUniforms i ii
  :: (if toggleBitset a DRAWPERMODEL then []
      else [CallUpdatePerInstanceUniforms i; CallDraw i]).

(** The body of the outer loop at [i]; [numFish] is
    [fishCount[i - fishBegin]]. *)
Definition fish_model (a : Aquarium) (i : Z) : list ModelCall :=
  let numFish := load (fishCount a) (i - fishBegin a) in
  CallPrepareForDraw i :: flat_map (fish_turn a i) (upto numFish).

(** [for (int i = fishBegin; i <= fishEnd; ++i)] *)
Definition fish_loop (a : Aquarium) : list ModelCall :=
  flat_map (fish_model a)
    (map (fun k => fishBegin a + k) (upto (fishEnd a - fishBegin a + 1))).

Definition is_fish_update (c : ModelCall) : bool :=
  match c with CallUpdateFishPerUniforms _ _ => true | _ => false end.

Definition is_draw (c : ModelCall) : bool :=
  match c with CallDraw _ => true | _ => false end.

Definition calls (p : ModelCall -> bool) (l : list ModelCall) : Z :=
  Z.of_nat (length (List.filter p l)).

Lemma calls_app p l1 l2 : calls p (l1 ++ l2) = calls p l1 + calls p l2.
Proof. unfold calls. rewrite List.filter_app, length_app. lia. Qed.

Lemma calls_flat_map {A} p (f : A -> list ModelCall) (l : list A) :
  calls p (flat_map f l) = Zsum (map (fun x => calls p (f x)) l).
Proof.
  induction l as [|x l IH]; [reflexivity|].
  simpl. rewrite calls_app, IH. reflexivity.
Qed.

Lemma Zsum_const {A} (l : list A) (c : Z) :
  Zsum (map (fun _ => c) l) = c * Z.of_nat (length l).
Proof. induction l as [|x l IH]; simpl; [lia | rewrite IH; lia]. Qed.

Lemma calls_fish_model p a i (per_fish : Z) :
  p (CallPrepareForDraw i) = false ->
  (forall ii, calls p (fish_turn a i ii) = per_fish) ->
  0 <= load (fishCount a) (i - fishBegin a) ->
  calls p (fish_model a i) = per_fish * load (fishCount a) (i - fishBegin a).
Proof.
  intros Hprep Hturn Hpos. unfold fish_model.
  change (calls p (CallPrepareForDraw i :: ?l)) with (calls p ([CallPrepareForDraw i] ++ l)).
  rewrite calls_app. unfold calls at 1. simpl. rewrite Hprep. simpl.
  rewrite calls_flat_map.
  rewrite (map_ext _ (fun _ => per_fish)) by (intros ii; apply Hturn).
  rewrite Zsum_const, length_upto by exact Hpos. reflexivity.
Qed.

Lemma calls_fish_loop p a (per_fish : Z) :
  (forall i, p (CallPrepareForDraw i) = false) ->
  (forall i ii, calls p (fish_turn a i ii) = per_fish) ->
  Forall (fun c => 0 <= c) (fishCount a) ->
  fishEnd a - fishBegin a + 1 = Z.of_nat (length (fishCount a)) ->
  calls p (fish_loop a) = per_fish * Zsum (fishCount a).
Proof.
  intros Hprep Hturn Hpos Hspan. unfold fish_loop.
  rewrite calls_flat_map, map_map, Hspan. unfold upto. rewrite Nat2Z.id, map_map.
  assert (forall k : nat, 0 <= load (fishCount a) (Z.of_nat k)) as Hload.
  { intros k. unfold load.
    assert ((0 <=? Z.of_nat k) = true) as Hk0 by (apply Z.leb_le; lia).
    rewrite Hk0, Nat2Z.id. destruct (fishCount a !! k) as [c|] eqn:Hk; simpl; [|lia].
    eapply Forall_lookup_1 in Hpos; [exact Hpos | exact Hk]. }
  rewrite (map_ext _ (fun k : nat => per_fish * load (fishCount a) (Z.of_nat k))).
  - rewrite <- (map_load_seq (fishCount a)) at 2.
    induction (seq 0 (length (fishCount a))) as [|k l IH]; simpl; [lia|].
    rewrite IH. lia.
  - intros k.
    assert (fishBegin a + Z.of_nat k - fishBegin a = Z.of_nat k) as Hk by (clear; lia).
    rewrite (calls_fish_model p a _ per_fish); [|apply Hprep | apply Hturn|];
      rewrite Hk; [reflexivity | apply Hload].
Qed.

(** X12.  The fish loop of a frame serves every fish of the allocation
    once: when the counts are not negative and the fish models span the
    [fishCount] array, the loop calls [updateFishPerUniforms] as many
    times as the counts add up to, each time with an index below the count
    of its species; without batching it draws as many times, and with
    batching (draw-per-model) it draws nothing itself. *)
Theorem fish_loop_serves_every_fish (a : Aquarium) :
  Forall (fun c => 0 <= c) (fishCount a) ->
  fishEnd a - fishBegin a + 1 = Z.of_nat (length (fishCount a)) ->
  calls is_fish_update (fish_loop a) = Zsum (fishCount a) /\
  calls is_draw (fish_loop a)
    = (if toggleBitset a DRAWPERMODEL then 0 else Zsum (fishCount a)) /\
  (forall i ii, In (CallUpdateFishPerUniforms i ii) (fish_loop a) ->
     fishBegin a <= i <= fishEnd a /\
     0 <= ii < load (fishCount a) (i - fishBegin a)).
Proof.
  intros Hpos Hspan. split; [|split].
  - rewrite (calls_fish_loop is_fish_update a 1); [lia | reflexivity | | exact Hpos | exact Hspan].
    intros i ii. unfold fish_turn. destruct (toggleBitset a DRAWPERMODEL); reflexivity.
  - destruct (toggleBitset a DRAWPERMODEL) eqn:Hd.
    + rewrite (calls_fish_loop is_draw a 0); [lia | reflexivity | | exact Hpos | exact Hspan].
      intros i ii. unfold fish_turn. rewrite Hd. reflexivity.
    + rewrite (calls_fish_loop is_draw a 1); [lia | reflexivity | | exact Hpos | exact Hspan].
      intros i ii. unfold fish_turn. rewrite Hd. reflexivity.
  - intros i ii Hin. unfold fish_loop in Hin.
    apply in_flat_map in Hin as (j & Hj & Hin).
    apply in_map_iff in Hj as (k & <- & Hk).
    apply list_elem_of_In, elem_of_upto in Hk.
    unfold fish_model in Hin. destruct Hin as [Hin|Hin]; [discriminate Hin|].
    apply in_flat_map in Hin as (ii' & Hii & Hin).
    apply list_elem_of_In, elem_of_upto in Hii.
    unfold fish_turn in Hin. destruct Hin as [Hin|Hin].
    + inversion Hin; subst. split; [lia | exact Hii].
    + destruct (toggleBitset a DRAWPERMODEL); [destruct Hin|].
      destruct Hin as [Hin|[Hin|[]]]; discriminate Hin.
Qed.

End WithDeclarations.

(** *** The constructor and [fishCount] *)

(** What [memset(fishCount, 0, 5)] does to five ints: it clears the first
    and the low byte of the second, and leaves the rest as it was. *)
Lemma new_fishCount x0 x1 x2 x3 x4 :
  Forall in_int [x0; x1; x2; x3; x4] ->
  fishCount (new [x0; x1; x2; x3; x4]) = [0; x1 - x1 mod 256; x2; x3; x4].
Proof.
  intros H. repeat (apply Forall_cons in H as [? H]).
  unfold new. cbn [fishCount CMem.encode flat_map CMem.int_bytes app CMem.memset
                   repeat drop CMem.decode].
  rewrite !CMem.bytes_int_int_bytes by assumption.
  f_equal. f_equal.
  unfold CMem.bytes_int, wrap_int, in_int, INT_MIN, INT_MAX in *.
  Z.to_euclidean_division_equations. lia.
Qed.

(** C10.  The constructor does not clear [fishCount]: its
    [memset(fishCount, 0, 5)] clears five bytes, not five ints.  For an
    object built in memory whose bytes were all 0xFF, the array reads
    0, -256, -1, -1, -1 right after construction. *)
Theorem new_fishCount_stale :
  fishCount (new [-1; -1; -1; -1; -1]) = [0; -256; -1; -1; -1].
Proof. reflexivity. Qed.

(** With the size of the array as the third argument, all five are 0. *)
Example memset_sizeof_fishCount :
  CMem.decode (CMem.memset (CMem.encode [-1; -1; -1; -1; -1]) 0 (5 * CMem.sizeof_int))
  = [0; 0; 0; 0; 0].
Proof. reflexivity. Qed.

(** *** Concrete runs on the reference scene *)

Definition scripted : Toggles :=
  fun t =>
    match t with
    | SIMULATINGFISHCOMEANDGO | ENABLEDYNAMICBUFFEROFFSET | ENABLEALPHABLENDING
    | DRAWPERMODEL => true
    | _ => false
    end.

Definition instanced : Toggles :=
  fun t =>
    match t with
    | ENABLEINSTANCEDDRAWS | DRAWPERMODEL => true
    | _ => false
    end.

(** 500 fish, then 100 more after two frames, then 30 fewer. *)
Definition scenario : list Behavior :=
  [mkBehavior 2 "+" 100; mkBehavior 0 "-" 30].

Definition started : Aquarium :=
  mkAquarium 500 500 [396; 50; 50; 2; 2] scenario scripted 0 0 ContextDawn.two_fish.

Example scenario_totals :
  map (fun n => mCurFishCount (fst (behavior_steps n started))) [0; 1; 2; 3; 4; 5]%nat
  = [500; 500; 500; 600; 570; 570].
Proof. reflexivity. Qed.

Example scenario_popped :
  popped (snd (behavior_steps 5 started))
  = [mkBehavior 0 "+" 100; mkBehavior 0 "-" 30].
Proof. reflexivity. Qed.

(** The frame that pops the first event: the counts are recomputed for 600
    fish and the realized count follows. *)
Example render_after_pop :
  let a := mkAquarium 500 500 [396; 50; 50; 2; 2] [mkBehavior 0 "+" 100]
             scripted 0 0 ContextDawn.two_fish in
  option_map (fun r => (mCurFishCount (fst r), mPreFishCount (fst r),
                        fishCount (fst r), g_start (fst r), g_then (fst r)))
    (render Reference.declarations 7 8 a)
  = Some (600, 600, [476; 60; 60; 2; 2], 8, 8).
Proof. reflexivity. Qed.


(** With the instanced-drawing toggle set by hand (start-up never sets
    it), the frame leaves a changed total alone. *)
Lemma render_instanced_ignores_change :
  let a := mkAquarium 600 500 [396; 50; 50; 2; 2] [] instanced 0 0
             ContextDawn.two_fish in
  mCurFishCount a <> mPreFishCount a /\
  render Reference.declarations 7 8 a
  = Some (mkAquarium 600 500 [396; 50; 50; 2; 2] [] instanced 0 7
            ContextDawn.two_fish, []).
Proof. split; [discriminate | reflexivity]. Qed.

Lemma render_reacts_to_change_example :
  let a := mkAquarium 500 500 [396; 50; 50; 2; 2] [mkBehavior 0 "+" 100]
             scripted 0 0 ContextDawn.two_fish in
  exists c evs,
    ContextDawn.reallocResource Reference.sizeof_FishPer 500 600 true
      ContextDawn.two_fish = Some (c, evs) /\
    render Reference.declarations 7 8 a
    = Some (mkAquarium 600 600 [476; 60; 60; 2; 2] [] scripted 8 8 c,
            [ActPop (mkBehavior 0 "+" 100); ActPrintFishCount 600;
             ActCalculateFishCount 600; ActReallocResource 500 600 true evs;
             ActResetFpsTime 8]).
Proof.
  intros a.
  destruct (render_reacts_to_change Reference.declarations 7 8 a)
    as [Hchange _].
  apply Hchange.
  - reflexivity.
  - vm_compute. discriminate.
  - vm_compute. intros [_ Hneg]. discriminate Hneg.
Defined.

(** The sentence of C6 fails: from the default 500 fish, the event
    "- 501" with countdown 0 brings the total to -1 in the first frame. *)
Lemma population_goes_negative :
  exists a0 a1 log,
    init Reference.declarations None scripted [mkBehavior 0 "-" 501] 0
      (new [0; 0; 0; 0; 0]) = Some a0 /\
    mCurFishCount a0 = 500 /\
    render Reference.declarations 1 1 a0 = Some (a1, log) /\
    mCurFishCount a1 = -1.
Proof.
  do 3 eexists. split; [reflexivity|]. split; [reflexivity|].
  split; [reflexivity|]. reflexivity.
Qed.

(** After that frame the realized count is -1 as well, and an event "+ 1"
    makes the next frame call [reallocResource (-1) 0]: a call with a larger
    new count that replaces nothing. *)
Example render_reaches_zero_from_negative :
  match init Reference.declarations None scripted
          [mkBehavior 0 "-" 501; mkBehavior 0 "+" 1] 0 (new [0; 0; 0; 0; 0]) with
  | Some a0 =>
      option_map snd (render_frames Reference.declarations [(1, 1); (2, 2)] a0)
  | None => None
  end
  = Some [ActPop (mkBehavior 0 "-" 501); ActPrintFishCount (-1);
          ActCalculateFishCount (-1); ActReallocResource 500 (-1) true [];
          ActResetFpsTime 1;
          ActPop (mkBehavior 0 "+" 1); ActPrintFishCount 0;
          ActCalculateFishCount 0; ActReallocResource (-1) 0 true [];
          ActResetFpsTime 2].
Proof. reflexivity. Qed.

Lemma population_nonnegative_witness :
  exists a0 a log,
    init Reference.declarations None scripted scenario 0 (new [0; 0; 0; 0; 0])
      = Some a0 /\
    mCurFishCount a0 = 500 /\
    render_frames Reference.declarations [(1, 1); (2, 2); (3, 3); (4, 4)] a0
      = Some (a, log) /\
    0 <= mCurFishCount a.
Proof.
  apply (population_nonnegative Reference.declarations [0; 0; 0; 0; 0] None scripted
           scenario 0 [(1, 1); (2, 2); (3, 3); (4, 4)]).
  - unfold INT_MAX. lia.
  - simpl. unfold delta, INT_MAX. simpl. lia.
Defined.

Example batched_draw_reference :
  batched_draw_accesses Reference.declarations started
  = [0; 1; 2; 3; 4; 5; 6; 7; 8; 9; 10; 11; 12; 13; 14; 15; 16; 17; 18; 19; 20;
     21; 22; 23; 24; 25; 26; 27].
Proof. reflexivity. Qed.

Lemma batched_draw_in_bounds_witness :
  0 <= 27 < Header.MODELMAX Reference.declarations.
Proof.
  apply (batched_draw_in_bounds Reference.declarations started 27).
  - simpl. unfold Reference.MODELSMALLFISHA, Reference.MODELMAX. lia.
  - simpl. unfold Reference.MODELBIGFISHB, Reference.MODELMAX. lia.
  - simpl. unfold Reference.MODELBIGFISHBINSTANCEDDRAWS, Reference.MODELMAX. lia.
  - rewrite batched_draw_reference. simpl. tauto.
Defined.

Lemma reference_well_formed : well_formed Reference.declarations 5.
Proof.
  unfold well_formed. cbn.
  split; [unfold Reference.g_numFishLeftSmall; lia|].
  split; [unfold Reference.g_numFishLeftBig; lia|].
  split; [repeat constructor; simpl;
          unfold Reference.MAX, Reference.SMALL, Reference.MEDIUM, Reference.BIG; lia|].
  split; [apply Exists_cons_hd; split; simpl; discriminate | reflexivity].
Qed.

Lemma render_frames_counts_total_witness :
  exists a1 a log,
    init Reference.declarations None scripted scenario 0 (new [0; 0; 0; 0; 0])
      = Some a1 /\
    render_frames Reference.declarations [(1, 1); (2, 2); (3, 3); (4, 4)] a1
      = Some (a, log) /\
    mPreFishCount a = mCurFishCount a /\
    length (fishCount a) = length (fishCount (new [0; 0; 0; 0; 0])) /\
    Forall (fun c => 0 <= c) (fishCount a) /\
    Zsum (fishCount a) = mCurFishCount a.
Proof.
  apply (render_frames_counts_total Reference.declarations None scripted scenario 0
           [(1, 1); (2, 2); (3, 3); (4, 4)] (new [0; 0; 0; 0; 0])).
  - exact reference_well_formed.
  - reflexivity.
  - simpl. unfold INT_MAX. lia.
  - simpl. unfold delta, INT_MAX. simpl. lia.
Defined.

(** The run of the scenario: 500 fish, 600 after the third frame, 570
    after the fourth. *)
Example scenario_counts :
  match init Reference.declarations None scripted scenario 0 (new [0; 0; 0; 0; 0]) with
  | Some a1 =>
      option_map (fun r => (mCurFishCount (fst r), fishCount (fst r)))
        (render_frames Reference.declarations [(1, 1); (2, 2); (3, 3); (4, 4)] a1)
  | None => None
  end
  = Some (570, [452; 57; 57; 2; 2]).
Proof. vm_compute. reflexivity. Qed.

Lemma render_frames_groups_in_range_witness :
  exists a1 a log,
    init Reference.declarations None scripted scenario 0 (new [0; 0; 0; 0; 0])
      = Some a1 /\
    render_frames Reference.declarations [(1, 1); (2, 2); (3, 3); (4, 4)] a1
      = Some (a, log) /\
    existsb ContextDawn.out_of_range (context_events log) = false.
Proof.
  do 3 eexists. split; [vm_compute; reflexivity|]. split; [vm_compute; reflexivity|].
  eapply (render_frames_groups_in_range Reference.declarations None scripted scenario 0
            [(1, 1); (2, 2); (3, 3); (4, 4)] (new [0; 0; 0; 0; 0])).
  - reflexivity.
  - vm_compute. reflexivity.
  - vm_compute. reflexivity.
Defined.

Lemma fish_loop_serves_every_fish_witness :
  calls is_fish_update (fish_loop Reference.declarations started) = 500.
Proof.
  assert (Forall (fun c => 0 <= c) (fishCount started)) as Hpos
    by (repeat constructor; lia).
  exact (proj1 (fish_loop_serves_every_fish Reference.declarations started Hpos eq_refl)).
Defined.

End Aquarium.

(** ** Start-up: options, toggles and the choice of the adapter *)

Module Startup.
Import Aquarium.

#[local] Instance TOGGLE_eq_dec : EqDecision TOGGLE.
Proof. solve_decision. Defined.

(** [bitset.set(t, v)]; [set(t)] is [set(t, true)] and [reset(t)] is
    [set(t, false)]. *)
Definition bitset_set (t : TOGGLE) (v : bool) (b : Toggles) : Toggles :=
  fun t' => if decide (t' = t) then v else b t'.

(** [ContextDawn::initAvailableToggleBitset], applied to the bitset as the
    base class leaves it. *)
Definition initAvailableToggleBitset (mAvailableToggleBitset : Toggles) : Toggles :=
  bitset_set BUFFERMAPPINGASYNC true
    (bitset_set ENABLEFULLSCREENMODE true
       (bitset_set INTEGRATEDGPU true
          (bitset_set DISCRETEGPU true
             (bitset_set ENABLEDYNAMICBUFFEROFFSET true
                (bitset_set ENABLEINSTANCEDDRAWS true
                   (bitset_set ENABLEMSAAx4 true mAvailableToggleBitset)))))).

(** *** The options of [Aquarium::init] *)

(** What the parser found on the command line, for the options that bear
    on the toggles: whether the option was given ([result.count(o) != 0])
    and, for [--alpha-blending], its value. *)
Record Options := mkOptions {
  alpha_blending : option string;
  buffer_mapping_async : bool;
  disable_control_panel : bool;
  disable_d3d12_render_pass : bool;
  disable_dawn_validation : bool;
  disable_dynamic_buffer_offset : bool;
  discrete_gpu : bool;
  integrated_gpu : bool;
  enable_full_screen_mode : bool;
  enable_instanced_draws : bool;
  print_log : bool;
  simulating_fish_come_and_go : bool;
  test_time : bool;
  turn_off_vsync : bool
}.

(** [if (result.count(o)) { if (!ok) return false; toggleBitset = f(toggleBitset); }];
    [None] is [return false]. *)
Definition when_given (given ok : bool) (f : Toggles -> Toggles) (b : Toggles)
  : option Toggles :=
  if given then (if ok then Some (f b) else None) else Some b.

Notation "'step' x <- e1 ;; e2" :=
  (match e1 with Some x => e2 | None => None end)
  (at level 10, x name, e1 at level 99, e2 at level 200).

(** The part of [Aquarium::init] between the creation of the context and
    the call of [mContext->initialize]: the toggles as the options and the
    backend's available toggles determine them.  ([--msaa-sample-count],
    [--num-fish] and [--window-size] set no toggle.) *)
Definition init_toggles (availableToggleBitset : Toggles) (o : Options)
    (toggleBitset : Toggles) : option Toggles :=
  let b := toggleBitset in
  let b := if availableToggleBitset DRAWPERMODEL
           then bitset_set DRAWPERMODEL true b else b in
  let b := if availableToggleBitset ENABLEDYNAMICBUFFEROFFSET
           then bitset_set ENABLEDYNAMICBUFFEROFFSET true b else b in
  let b := bitset_set ENABLEALPHABLENDING true b in
  let b := match alpha_blending o with
           | Some alpha =>
               if String.eqb alpha "false"
               then bitset_set ENABLEALPHABLENDING false b else b
           | None => b
           end in
  step b <- when_given (buffer_mapping_async o) (availableToggleBitset BUFFERMAPPINGASYNC)
         (bitset_set BUFFERMAPPINGASYNC true) b ;;
  step b <- when_given (disable_control_panel o) true
         (bitset_set DISABLECONTROLPANEL true) b ;;
  step b <- when_given (disable_d3d12_render_pass o)
         (availableToggleBitset DISABLED3D12RENDERPASS)
         (bitset_set DISABLED3D12RENDERPASS true) b ;;
  step b <- when_given (disable_dawn_validation o)
         (availableToggleBitset DISABLEDAWNVALIDATION)
         (bitset_set DISABLEDAWNVALIDATION true) b ;;
  step b <- when_given (disable_dynamic_buffer_offset o)
         (availableToggleBitset ENABLEDYNAMICBUFFEROFFSET)
         (bitset_set ENABLEDYNAMICBUFFEROFFSET false) b ;;
  step b <- when_given (discrete_gpu o)
         (availableToggleBitset INTEGRATEDGPU || availableToggleBitset DISCRETEGPU)
         (bitset_set DISCRETEGPU true) b ;;
  step b <- when_given (integrated_gpu o)
         (availableToggleBitset INTEGRATEDGPU || availableToggleBitset DISCRETEGPU)
         (bitset_set INTEGRATEDGPU true) b ;;
  step b <- when_given (enable_full_screen_mode o)
         (availableToggleBitset ENABLEFULLSCREENMODE)
         (bitset_set ENABLEFULLSCREENMODE true) b ;;
  step b <- when_given (enable_instanced_draws o) false (fun b => b) b ;;
  step b <- when_given (print_log o) true (bitset_set PRINTLOG true) b ;;
  step b <- when_given (simulating_fish_come_and_go o)
         (availableToggleBitset SIMULATINGFISHCOMEANDGO)
         (bitset_set SIMULATINGFISHCOMEANDGO true) b ;;
  step b <- when_given (test_time o) true (bitset_set AUTOSTOP true) b ;;
  when_given (turn_off_vsync o) (availableToggleBitset TURNOFFVSYNC)
    (bitset_set TURNOFFVSYNC true) b.

(** *** The choice of the adapter *)

(** The enumerators of [dawn_native] that the function names. *)
Inductive BackendType := D3D12 | Metal | Null | OpenGL | Vulkan.
Inductive DeviceType := DiscreteGPU | IntegratedGPU | OtherDevice.

#[local] Instance BackendType_eq_dec : EqDecision BackendType.
Proof. solve_decision. Defined.

#[local] Instance DeviceType_eq_dec : EqDecision DeviceType.
Proof. solve_decision. Defined.

Record Adapter := mkAdapter {
  GetBackendType : BackendType;
  GetDeviceType : DeviceType;
  adapter_name : string
}.

(** The loop over [instance->GetAdapters()]; the state is
    the adapter written through [backendAdapter] and [result]; a match
    leaves the loop. *)
Fixpoint adapters_loop (backendType : BackendType)
    (useDefaultGpu enableDiscreteGpu enableIntegratedGpu : bool)
    (adapters : list Adapter) (st : option Adapter * bool) : option Adapter * bool :=
  match adapters with
  | [] => st
  | adapter :: rest =>
      if bool_decide (GetBackendType adapter = backendType)
         && (useDefaultGpu
             || (enableDiscreteGpu && bool_decide (GetDeviceType adapter = DiscreteGPU))
             || (enableIntegratedGpu
                 && bool_decide (GetDeviceType adapter = IntegratedGPU)))
      then (Some adapter, true)
      else adapters_loop backendType useDefaultGpu enableDiscreteGpu
             enableIntegratedGpu rest st
  end.

(** [ContextDawn::GetHardwareAdapter]: the adapter left behind
    [backendAdapter] and the value returned. *)
Definition GetHardwareAdapter (adapters : list Adapter)
    (backendAdapter : option Adapter) (backendType : BackendType)
    (toggleBitset : Toggles) : option Adapter * bool :=
  let enableIntegratedGpu := toggleBitset INTEGRATEDGPU in
  let enableDiscreteGpu := toggleBitset DISCRETEGPU in
  let useDefaultGpu :=
    if Bool.eqb (enableDiscreteGpu || enableIntegratedGpu) false then true else false in
  let '(backendAdapter, result) :=
    adapters_loop backendType useDefaultGpu enableDiscreteGpu enableIntegratedGpu
      adapters (backendAdapter, false) in
  if negb result then (backendAdapter, false) else (backendAdapter, true).

(** *** Which toggles start-up can set *)

Lemma bitset_set_eq t v b : bitset_set t v b t = v.
Proof. unfold bitset_set. rewrite decide_True by reflexivity. reflexivity. Qed.

Lemma bitset_set_ne t v b x : x <> t -> bitset_set t v b x = b x.
Proof. intros H. unfold bitset_set. rewrite decide_False by exact H. reflexivity. Qed.

(** A property of the bitset that every step taken keeps holds at the end. *)
Lemma when_given_keeps (P : Toggles -> Prop) given ok f b b' :
  when_given given ok f b = Some b' ->
  (given = true -> ok = true -> P b -> P (f b)) ->
  P b -> P b'.
Proof.
  unfold when_given. destruct given, ok; intros H Hf Hb; inversion H; subst; auto.
Qed.

(** The steps of [init_toggles], from the last to the first. *)
Ltac init_steps H :=
  unfold init_toggles in H;
  repeat match type of H with
         | match when_given ?g ?ok ?f ?b with Some _ => _ | None => None end = Some _ =>
             let b' := fresh "b" in
             let E := fresh "E" in
             destruct (when_given g ok f b) as [b'|] eqn:E; [|discriminate H]
         end.

(** Setting [t] keeps "[x] is set only if allowed" when [t] is allowed. *)
Lemma bitset_set_allowed (allowed : Prop) x t v b :
  (x = t -> v = true -> allowed) ->
  (b x = true -> allowed) ->
  bitset_set t v b x = true -> allowed.
Proof.
  intros Ht Hb. unfold bitset_set. destruct (decide (x = t)) as [->|Hne]; auto.
Qed.

(** The toggles that need no support of the backend. *)
Definition free_toggle (x : TOGGLE) : Prop :=
  x = ENABLEALPHABLENDING \/ x = DISABLECONTROLPANEL \/ x = PRINTLOG \/ x = AUTOSTOP.

(** The two toggles for which [init] asks for either GPU kind. *)
Definition gpu_toggle (x : TOGGLE) : Prop := x = DISCRETEGPU \/ x = INTEGRATEDGPU.

Lemma init_toggles_allowed available o b0 t x :
  init_toggles available o b0 = Some t ->
  t x = true ->
  b0 x = true \/ free_toggle x \/ available x = true \/
  (gpu_toggle x /\ (available INTEGRATEDGPU = true \/ available DISCRETEGPU = true)).
Proof.
  intros H. init_steps H.
  set (allowed := b0 x = true \/ free_toggle x \/ available x = true \/
                  (gpu_toggle x /\
                   (available INTEGRATEDGPU = true \/ available DISCRETEGPU = true))).
  set (P := fun b : Toggles => b x = true -> allowed).
  change (P t).
  assert (forall tg v s given ok s',
            when_given given ok (bitset_set tg v) s = Some s' ->
            (x = tg -> v = true -> given = true -> ok = true -> allowed) ->
            P s -> P s') as Hstep.
  { intros tg v s given ok s' Es Hal Hs.
    apply (when_given_keeps P _ _ _ _ _ Es); [|exact Hs].
    intros Hg Hok Hs' Hset. revert Hset.
    apply bitset_set_allowed; [intros; apply Hal; assumption | exact Hs']. }
  assert (forall tg, x = tg -> free_toggle tg -> allowed) as Hfree.
  { intros tg -> Hf. right. left. exact Hf. }
  assert (forall tg, x = tg -> available tg = true -> allowed) as Hav.
  { intros tg -> Ha. right. right. left. exact Ha. }
  assert (forall tg, x = tg -> gpu_toggle tg ->
            available INTEGRATEDGPU || available DISCRETEGPU = true -> allowed) as Hgpu.
  { intros tg -> Hg Ha. right. right. right. split; [exact Hg|].
    apply orb_true_iff in Ha. exact Ha. }
  eapply Hstep; [exact H | intros; eapply Hav; eassumption |].
  eapply Hstep; [eassumption | intros; eapply Hfree; [eassumption|unfold free_toggle; tauto] |].
  eapply Hstep; [eassumption | intros; eapply Hav; eassumption |].
  eapply Hstep; [eassumption | intros; eapply Hfree; [eassumption|unfold free_toggle; tauto] |].
  eapply (when_given_keeps P); [eassumption | intros _ _ Hb; exact Hb |].
  eapply Hstep; [eassumption | intros; eapply Hav; eassumption |].
  eapply Hstep; [eassumption | intros; eapply Hgpu; [eassumption|unfold gpu_toggle; tauto|assumption] |].
  eapply Hstep; [eassumption | intros; eapply Hgpu; [eassumption|unfold gpu_toggle; tauto|assumption] |].
  eapply Hstep; [eassumption | intros; discriminate |].
  eapply Hstep; [eassumption | intros; eapply Hav; eassumption |].
  eapply Hstep; [eassumption | intros; eapply Hav; eassumption |].
  eapply Hstep; [eassumption | intros; eapply Hfree; [eassumption|unfold free_toggle; tauto] |].
  eapply Hstep; [eassumption | intros; eapply Hav; eassumption |].
  unfold P. clear.
  assert (forall s : Toggles, (s x = true -> allowed) ->
            (match alpha_blending o with
             | Some alpha =>
                 if String.eqb alpha "false"
                 then bitset_set ENABLEALPHABLENDING false s else s
             | None => s
             end) x = true -> allowed) as Halpha.
  { intros s Hs. destruct (alpha_blending o) as [alpha|]; [|exact Hs].
    destruct (String.eqb alpha "false"); [|exact Hs].
    apply bitset_set_allowed; [intros; discriminate | exact Hs]. }
  apply Halpha.
  apply bitset_set_allowed;
    [intros -> _; right; left; unfold free_toggle; tauto|].
  destruct (available ENABLEDYNAMICBUFFEROFFSET) eqn:Hdyn;
    destruct (available DRAWPERMODEL) eqn:Hdpm;
    repeat (apply bitset_set_allowed;
            [intros -> _; right; right; left; assumption|]);
    intros Hb; left; exact Hb.
Qed.

(** X13.  Start-up sets a toggle only with the support of the backend:
    after a successful [init_toggles] from the empty bitset, every toggle
    that is set is reported available by the context, except the four
    that need no support (alpha blending, no control panel, log, auto
    stop), and except that [--discrete-gpu] and [--integrated-gpu] are each
    accepted as soon as the context reports either of the two kinds. *)
Theorem init_toggles_supported available o t x :
  init_toggles available o (fun _ => false) = Some t ->
  t x = true ->
  free_toggle x \/ available x = true \/
  (gpu_toggle x /\ (available INTEGRATEDGPU = true \/ available DISCRETEGPU = true)).
Proof.
  intros H Hx.
  destruct (init_toggles_allowed available o _ t x H Hx) as [Hfalse|Hrest];
    [discriminate Hfalse | exact Hrest].
Qed.

(** *** The toggles that no option turns on *)

Lemma when_given_other x given ok tg v b b' :
  when_given given ok (bitset_set tg v) b = Some b' -> x <> tg -> b' x = b x.
Proof.
  unfold when_given. destruct given, ok; intros H Hne; inversion H; subst;
    try reflexivity. apply bitset_set_ne. exact Hne.
Qed.

Lemma when_given_refused given f b b' :
  when_given given false f b = Some b' -> given = false /\ b' = b.
Proof.
  unfold when_given. destruct given; intros H; inversion H. split; reflexivity.
Qed.

(** Through the steps that do not touch [x]. *)
Ltac untouched x :=
  repeat match goal with
         | E : when_given _ _ (bitset_set _ _) ?b = Some ?b' |- context [?b' x] =>
             rewrite (when_given_other x _ _ _ _ _ _ E) by discriminate
         | E : when_given _ false (fun s => s) ?b = Some ?b' |- context [?b' x] =>
             rewrite (proj2 (when_given_refused _ _ _ _ E))
         end.

(** The values that the bitset has before the first option is looked at. *)
Ltac defaults :=
  repeat match goal with
         | |- context [alpha_blending ?o] => destruct (alpha_blending o)
         | |- context [String.eqb ?a "false"] => destruct (String.eqb a "false")
         | |- context [if ?av ENABLEDYNAMICBUFFEROFFSET then _ else _] =>
             destruct (av ENABLEDYNAMICBUFFEROFFSET)
         | |- context [if ?av DRAWPERMODEL then _ else _] =>
             destruct (av DRAWPERMODEL)
         end;
  unfold bitset_set; simpl; try reflexivity.

Lemma init_toggles_values available o t :
  init_toggles available o (fun _ => false) = Some t ->
  t ENABLEINSTANCEDDRAWS = false /\
  t ENABLEMSAAx4 = false /\
  enable_instanced_draws o = false /\
  t DRAWPERMODEL = available DRAWPERMODEL /\
  t ENABLEDYNAMICBUFFEROFFSET
    = available ENABLEDYNAMICBUFFEROFFSET && negb (disable_dynamic_buffer_offset o) /\
  t ENABLEALPHABLENDING
    = negb (match alpha_blending o with
            | Some alpha => String.eqb alpha "false"
            | None => false
            end).
Proof.
  intros H. init_steps H. repeat split.
  - rewrite (when_given_other ENABLEINSTANCEDDRAWS _ _ _ _ _ _ H) by discriminate.
    untouched ENABLEINSTANCEDDRAWS. defaults.
  - rewrite (when_given_other ENABLEMSAAx4 _ _ _ _ _ _ H) by discriminate.
    untouched ENABLEMSAAx4. defaults.
  - match goal with
    | E : when_given (enable_instanced_draws o) false _ _ = Some _ |- _ =>
        exact (proj1 (when_given_refused _ _ _ _ E))
    end.
  - rewrite (when_given_other DRAWPERMODEL _ _ _ _ _ _ H) by discriminate.
    untouched DRAWPERMODEL. defaults.
  - rewrite (when_given_other ENABLEDYNAMICBUFFEROFFSET _ _ _ _ _ _ H) by discriminate.
    untouched ENABLEDYNAMICBUFFEROFFSET.
    match goal with
    | E : when_given (disable_dynamic_buffer_offset o) _ _ ?b = Some ?b' |- _ =>
        unfold when_given in E;
        destruct (disable_dynamic_buffer_offset o);
        [destruct (available ENABLEDYNAMICBUFFEROFFSET) eqn:Hav; [|discriminate E]|];
        inversion E; subst b'; clear E
    end.
    + rewrite bitset_set_eq. reflexivity.
    + untouched ENABLEDYNAMICBUFFEROFFSET. rewrite andb_true_r. defaults.
  - rewrite (when_given_other ENABLEALPHABLENDING _ _ _ _ _ _ H) by discriminate.
    untouched ENABLEALPHABLENDING. defaults.
Qed.

(** X14.  What a successful start-up fixes whatever the options: from
    the empty bitset, instanced drawing and MSAA are never enabled (and
    an [enable-instanced-draws] option makes [init] fail); drawing per
    model is on exactly when the context reports it; the dynamic buffer
    offset is on when the context reports it and
    [--disable-dynamic-buffer-offset] was not given; alpha blending is on
    unless [--alpha-blending false] was given. *)
Theorem init_toggles_defaults available o t :
  init_toggles available o (fun _ => false) = Some t ->
  t ENABLEINSTANCEDDRAWS = false /\
  t ENABLEMSAAx4 = false /\
  enable_instanced_draws o = false /\
  t DRAWPERMODEL = available DRAWPERMODEL /\
  t ENABLEDYNAMICBUFFEROFFSET
    = available ENABLEDYNAMICBUFFEROFFSET && negb (disable_dynamic_buffer_offset o) /\
  t ENABLEALPHABLENDING
    = negb (match alpha_blending o with
            | Some alpha => String.eqb alpha "false"
            | None => false
            end).
Proof. apply init_toggles_values. Qed.

(** *** The reaction of a frame to a changed total *)




(** *** Start-up on the Dawn context *)

Lemma initAvailableToggleBitset_other before x :
  x <> BUFFERMAPPINGASYNC -> x <> ENABLEFULLSCREENMODE -> x <> INTEGRATEDGPU ->
  x <> DISCRETEGPU -> x <> ENABLEDYNAMICBUFFEROFFSET -> x <> ENABLEINSTANCEDDRAWS ->
  x <> ENABLEMSAAx4 ->
  initAvailableToggleBitset before x = before x.
Proof.
  intros. unfold initAvailableToggleBitset. rewrite !bitset_set_ne by assumption.
  reflexivity.
Qed.

Lemma init_toggles_requires available o t :
  init_toggles available o (fun _ => false) = Some t ->
  (simulating_fish_come_and_go o = true -> available SIMULATINGFISHCOMEANDGO = true) /\
  (turn_off_vsync o = true -> available TURNOFFVSYNC = true) /\
  (disable_d3d12_render_pass o = true -> available DISABLED3D12RENDERPASS = true) /\
  (disable_dawn_validation o = true -> available DISABLEDAWNVALIDATION = true) /\
  (buffer_mapping_async o = true -> t BUFFERMAPPINGASYNC = true).
Proof.
  intros H. init_steps H.
  assert (forall given ok f b b', when_given given ok f b = Some b' ->
            given = true -> ok = true) as Hreq.
  { unfold when_given. intros given ok f s s' Hs ->. destruct ok; [reflexivity|discriminate]. }
  repeat split; intros Hgiven.
  - match goal with
    | E : when_given (simulating_fish_come_and_go o) _ _ _ = Some _ |- _ =>
        exact (Hreq _ _ _ _ _ E Hgiven)
    end.
  - exact (Hreq _ _ _ _ _ H Hgiven).
  - match goal with
    | E : when_given (disable_d3d12_render_pass o) _ _ _ = Some _ |- _ =>
        exact (Hreq _ _ _ _ _ E Hgiven)
    end.
  - match goal with
    | E : when_given (disable_dawn_validation o) _ _ _ = Some _ |- _ =>
        exact (Hreq _ _ _ _ _ E Hgiven)
    end.
  - rewrite (when_given_other BUFFERMAPPINGASYNC _ _ _ _ _ _ H) by discriminate.
    untouched BUFFERMAPPINGASYNC.
    match goal with
    | E : when_given (buffer_mapping_async o) _ _ ?b = Some ?b' |- _ =>
        unfold when_given in E; rewrite Hgiven in E;
        destruct (available BUFFERMAPPINGASYNC); [|discriminate E];
        inversion E; subst b'
    end.
    apply bitset_set_eq.
Qed.

(** X15.  On the Dawn context, whose available toggles are those of
    [initAvailableToggleBitset] (the base class reporting none of the five
    named below): [init] fails when one of
    [--simulating-fish-come-and-go], [--turn-off-vsync],
    [--disable-d3d12-render-pass] or [--disable-dawn-validation] is given,
    and after a successful [init] the scripted population and drawing per
    model are both off, while the dynamic buffer offset is on unless
    [--disable-dynamic-buffer-offset] was given. *)
Theorem init_toggles_dawn before o t :
  before SIMULATINGFISHCOMEANDGO = false ->
  before DRAWPERMODEL = false ->
  before TURNOFFVSYNC = false ->
  before DISABLED3D12RENDERPASS = false ->
  before DISABLEDAWNVALIDATION = false ->
  init_toggles (initAvailableToggleBitset before) o (fun _ => false) = Some t ->
  simulating_fish_come_and_go o = false /\
  turn_off_vsync o = false /\
  disable_d3d12_render_pass o = false /\
  disable_dawn_validation o = false /\
  t SIMULATINGFISHCOMEANDGO = false /\
  t DRAWPERMODEL = false /\
  t ENABLEDYNAMICBUFFEROFFSET = negb (disable_dynamic_buffer_offset o).
Proof.
  intros Hsim Hdpm Hvs Hrp Hval H.
  destruct (init_toggles_requires _ _ _ H) as (Rsim & Rvs & Rrp & Rval & _).
  destruct (init_toggles_values _ _ _ H) as (_ & _ & _ & Vdpm & Vdyn & _).
  rewrite initAvailableToggleBitset_other in Rsim, Rvs, Rrp, Rval, Vdpm by discriminate.
  assert (forall g : bool, (g = true -> false = true) -> g = false) as Hno
    by (intros [|] Hg; [symmetry; apply Hg|]; reflexivity).
  rewrite Hsim in Rsim. rewrite Hvs in Rvs. rewrite Hrp in Rrp. rewrite Hval in Rval.
  repeat split; try (apply Hno; assumption).
  - destruct (t SIMULATINGFISHCOMEANDGO) eqn:Ht; [|reflexivity].
    destruct (init_toggles_allowed _ _ _ _ _ H Ht) as [Hf|[Hf|[Hf|[Hf _]]]].
    + discriminate Hf.
    + unfold free_toggle in Hf. intuition discriminate.
    + rewrite initAvailableToggleBitset_other in Hf by discriminate. congruence.
    + unfold gpu_toggle in Hf. intuition discriminate.
  - rewrite Vdpm. exact Hdpm.
  - rewrite Vdyn. reflexivity.
Qed.

(** X16.  On the Dawn context, after a successful [init] with
    [--buffer-mapping-async], a frame entered with no mapping request
    pending does not return from [DoFlush]: drawing per model is off, so
    [updateAndDraw] does not call [updateAllFishData], no request is made,
    and [DoFlush] waits for a callback that nothing has asked for. *)
Theorem init_dawn_async_frame_waits before o t sizeof_FishPer ticks w :
  before DRAWPERMODEL = false ->
  init_toggles (initAvailableToggleBitset before) o (fun _ => false) = Some t ->
  buffer_mapping_async o = true ->
  ContextDawn.mappedData (ContextDawn.ctx w) = false ->
  ContextDawn.mapPending w = false ->
  exists w' evs,
    ContextDawn.frame sizeof_FishPer (t BUFFERMAPPINGASYNC) (t DRAWPERMODEL) ticks w
    = (w', evs, false) /\
    forallb (fun e => match e with ContextDawn.EvSubmit _ => false | _ => true end) evs
    = true.
Proof.
  intros Hdpm H Hasync Hm Hp.
  destruct (init_toggles_requires _ _ _ H) as (_ & _ & _ & _ & Rasync).
  destruct (init_toggles_values _ _ _ H) as (_ & _ & _ & Vdpm & _).
  rewrite initAvailableToggleBitset_other in Vdpm by discriminate.
  rewrite (Rasync Hasync), Vdpm, Hdpm. unfold ContextDawn.frame.
  unfold ContextDawn.DoFlush. rewrite Hp.
  rewrite ContextDawn.wait_for_mapping_idle by (try reflexivity; exact Hm).
  eexists _, _. split; [reflexivity|].
  simpl. induction ticks as [|fire ticks IH]; [reflexivity | exact IH].
Qed.

(** *** The adapter that is chosen *)

(** What the toggles ask of an adapter. *)
Definition wanted (backendType : BackendType) (toggleBitset : Toggles) (a : Adapter)
  : Prop :=
  GetBackendType a = backendType /\
  ((toggleBitset DISCRETEGPU = false /\ toggleBitset INTEGRATEDGPU = false) \/
   (toggleBitset DISCRETEGPU = true /\ GetDeviceType a = DiscreteGPU) \/
   (toggleBitset INTEGRATEDGPU = true /\ GetDeviceType a = IntegratedGPU)).

Lemma wanted_test backendType toggleBitset a :
  bool_decide (GetBackendType a = backendType)
  && ((if Bool.eqb (toggleBitset DISCRETEGPU || toggleBitset INTEGRATEDGPU) false
       then true else false)
      || (toggleBitset DISCRETEGPU && bool_decide (GetDeviceType a = DiscreteGPU))
      || (toggleBitset INTEGRATEDGPU && bool_decide (GetDeviceType a = IntegratedGPU)))
  = true
  <-> wanted backendType toggleBitset a.
Proof.
  unfold wanted.
  destruct (toggleBitset DISCRETEGPU), (toggleBitset INTEGRATEDGPU); simpl;
    rewrite andb_true_iff, ?orb_true_iff, ?andb_true_iff, !bool_decide_eq_true;
    intuition (try discriminate; try congruence).
Qed.

Lemma adapters_loop_first backendType toggleBitset before a after st :
  wanted backendType toggleBitset a ->
  Forall (fun x => ~ wanted backendType toggleBitset x) before ->
  adapters_loop backendType
    (if Bool.eqb (toggleBitset DISCRETEGPU || toggleBitset INTEGRATEDGPU) false
     then true else false)
    (toggleBitset DISCRETEGPU) (toggleBitset INTEGRATEDGPU)
    (before ++ a :: after) st
  = (Some a, true).
Proof.
  intros Ha. induction before as [|x before IH]; intros Hbefore; simpl.
  - rewrite (proj2 (wanted_test backendType toggleBitset a) Ha). reflexivity.
  - apply Forall_cons in Hbefore as [Hx Hbefore].
    destruct (_ && _) eqn:Htest.
    + exfalso. apply Hx, wanted_test, Htest.
    + apply IH, Hbefore.
Qed.

Lemma adapters_loop_none backendType toggleBitset adapters st :
  Forall (fun x => ~ wanted backendType toggleBitset x) adapters ->
  adapters_loop backendType
    (if Bool.eqb (toggleBitset DISCRETEGPU || toggleBitset INTEGRATEDGPU) false
     then true else false)
    (toggleBitset DISCRETEGPU) (toggleBitset INTEGRATEDGPU) adapters st
  = st.
Proof.
  induction adapters as [|x adapters IH]; intros Hall; simpl; [reflexivity|].
  apply Forall_cons in Hall as [Hx Hall].
  destruct (_ && _) eqn:Htest.
  - exfalso. apply Hx, wanted_test, Htest.
  - apply IH, Hall.
Qed.

(** X17.  [GetHardwareAdapter] chooses the first adapter, in the order of
    enumeration, that has the backend type asked for and, when a GPU kind
    is asked for, is of a kind asked for (with both [DISCRETEGPU] and
    [INTEGRATEDGPU] set, of either kind); it returns true and stores that
    adapter.  When no adapter qualifies it returns false and stores
    nothing. *)
Theorem GetHardwareAdapter_first_wanted adapters backendAdapter backendType toggleBitset :
  (forall before a after,
     adapters = before ++ a :: after ->
     wanted backendType toggleBitset a ->
     Forall (fun x => ~ wanted backendType toggleBitset x) before ->
     GetHardwareAdapter adapters backendAdapter backendType toggleBitset
     = (Some a, true)) /\
  (Forall (fun x => ~ wanted backendType toggleBitset x) adapters ->
   GetHardwareAdapter adapters backendAdapter backendType toggleBitset
   = (backendAdapter, false)).
Proof.
  split.
  - intros before a after -> Ha Hbefore. unfold GetHardwareAdapter.
    rewrite (orb_comm (toggleBitset DISCRETEGPU)) at 1.
    rewrite (orb_comm (toggleBitset INTEGRATEDGPU)).
    rewrite (adapters_loop_first _ _ _ _ _ _ Ha Hbefore). reflexivity.
  - intros Hall. unfold GetHardwareAdapter.
    rewrite (adapters_loop_none _ _ _ _ Hall). reflexivity.
Qed.

(** *** Concrete runs *)

Definition no_options : Options :=
  mkOptions None false false false false false false false false false false false
    false false.

(** The toggles that the Dawn context reports. *)
Definition dawn_available : Toggles := initAvailableToggleBitset (fun _ => false).

Definition all_toggles : list TOGGLE :=
  [ENABLEMSAAx4; ENABLEINSTANCEDDRAWS; ENABLEDYNAMICBUFFEROFFSET; DISCRETEGPU;
   INTEGRATEDGPU; ENABLEFULLSCREENMODE; PRINTLOG; BUFFERMAPPINGASYNC; TURNOFFVSYNC;
   AUTOSTOP; ENABLEALPHABLENDING; SIMULATINGFISHCOMEANDGO; DISABLED3D12RENDERPASS;
   DISABLEDAWNVALIDATION; DISABLECONTROLPANEL; DRAWPERMODEL].

(** Without options, the Dawn context starts with the dynamic buffer
    offset and alpha blending. *)
Example init_toggles_dawn_plain :
  option_map (fun t => List.filter t all_toggles)
    (init_toggles dawn_available no_options (fun _ => false))
  = Some [ENABLEDYNAMICBUFFEROFFSET; ENABLEALPHABLENDING].
Proof. reflexivity. Qed.

(** Both GPU options at once are accepted. *)
Definition both_gpus : Options :=
  mkOptions None true false false false false true true false false false false
    false false.

Example init_toggles_both_gpus :
  option_map (fun t => List.filter t all_toggles)
    (init_toggles dawn_available both_gpus (fun _ => false))
  = Some [ENABLEDYNAMICBUFFEROFFSET; DISCRETEGPU; INTEGRATEDGPU; BUFFERMAPPINGASYNC;
          ENABLEALPHABLENDING].
Proof. reflexivity. Qed.

Example init_toggles_simulating_refused :
  init_toggles dawn_available
    (mkOptions None false false false false false false false false false false true
       false false) (fun _ => false)
  = None.
Proof. reflexivity. Qed.

(** A backend that reports every toggle, and the scripted population. *)
Definition with_scenario : Options :=
  mkOptions None false false false false false false false false false false true
    false false.

Definition scenario_toggles : Toggles :=
  match init_toggles (fun _ => true) with_scenario (fun _ => false) with
  | Some t => t
  | None => fun _ => false
  end.

Example scenario_toggles_set :
  List.filter scenario_toggles all_toggles
  = [ENABLEDYNAMICBUFFEROFFSET; ENABLEALPHABLENDING; SIMULATINGFISHCOMEANDGO;
     DRAWPERMODEL].
Proof. reflexivity. Qed.


Lemma init_toggles_supported_witness :
  exists t,
    init_toggles dawn_available both_gpus (fun _ => false) = Some t /\
    t BUFFERMAPPINGASYNC = true /\
    (free_toggle BUFFERMAPPINGASYNC \/ dawn_available BUFFERMAPPINGASYNC = true \/
     (gpu_toggle BUFFERMAPPINGASYNC /\
      (dawn_available INTEGRATEDGPU = true \/ dawn_available DISCRETEGPU = true))).
Proof.
  eexists. split; [reflexivity|]. split; [reflexivity|].
  eapply (init_toggles_supported dawn_available both_gpus _ BUFFERMAPPINGASYNC);
    reflexivity.
Defined.

Lemma init_toggles_defaults_witness :
  exists t,
    init_toggles dawn_available both_gpus (fun _ => false) = Some t /\
    t ENABLEINSTANCEDDRAWS = false /\
    t ENABLEMSAAx4 = false /\
    enable_instanced_draws both_gpus = false /\
    t DRAWPERMODEL = dawn_available DRAWPERMODEL /\
    t ENABLEDYNAMICBUFFEROFFSET
      = dawn_available ENABLEDYNAMICBUFFEROFFSET
        && negb (disable_dynamic_buffer_offset both_gpus) /\
    t ENABLEALPHABLENDING
      = negb (match alpha_blending both_gpus with
              | Some alpha => String.eqb alpha "false"
              | None => false
              end).
Proof.
  eexists. split; [reflexivity|].
  eapply (init_toggles_defaults dawn_available both_gpus). reflexivity.
Defined.

Lemma init_toggles_dawn_witness :
  exists t,
    init_toggles dawn_available both_gpus (fun _ => false) = Some t /\
    simulating_fish_come_and_go both_gpus = false /\
    turn_off_vsync both_gpus = false /\
    disable_d3d12_render_pass both_gpus = false /\
    disable_dawn_validation both_gpus = false /\
    t SIMULATINGFISHCOMEANDGO = false /\
    t DRAWPERMODEL = false /\
    t ENABLEDYNAMICBUFFEROFFSET = negb (disable_dynamic_buffer_offset both_gpus).
Proof.
  eexists. split; [reflexivity|].
  eapply (init_toggles_dawn (fun _ => false) both_gpus); reflexivity.
Defined.

Lemma init_dawn_async_frame_waits_witness :
  exists t w' evs,
    init_toggles dawn_available both_gpus (fun _ => false) = Some t /\
    ContextDawn.frame Reference.sizeof_FishPer (t BUFFERMAPPINGASYNC) (t DRAWPERMODEL)
      [true; true] (ContextDawn.mkWorld ContextDawn.two_fish false)
    = (w', evs, false) /\
    forallb (fun e => match e with ContextDawn.EvSubmit _ => false | _ => true end) evs
    = true.
Proof.
  eexists.
  destruct (init_dawn_async_frame_waits (fun _ => false) both_gpus _
              Reference.sizeof_FishPer [true; true]
              (ContextDawn.mkWorld ContextDawn.two_fish false)
              eq_refl eq_refl eq_refl eq_refl eq_refl) as (w' & evs & Hrun & Hsub).
  exists w', evs. split; [reflexivity|]. split; [exact Hrun | exact Hsub].
Defined.

(** A machine with an integrated and a discrete Vulkan GPU, and a
    software adapter enumerated first. *)
Definition adapters_example : list Adapter :=
  [mkAdapter Vulkan OtherDevice "software";
   mkAdapter D3D12 DiscreteGPU "discrete (D3D12)";
   mkAdapter Vulkan IntegratedGPU "integrated";
   mkAdapter Vulkan DiscreteGPU "discrete"].

(** Without a preference the software adapter is taken. *)
Example GetHardwareAdapter_default :
  GetHardwareAdapter adapters_example None Vulkan (fun _ => false)
  = (Some (mkAdapter Vulkan OtherDevice "software"), true).
Proof. reflexivity. Qed.

Example GetHardwareAdapter_discrete :
  GetHardwareAdapter adapters_example None Vulkan (bitset_set DISCRETEGPU true (fun _ => false))
  = (Some (mkAdapter Vulkan DiscreteGPU "discrete"), true).
Proof. reflexivity. Qed.

Example GetHardwareAdapter_none :
  GetHardwareAdapter adapters_example None Metal (fun _ => false) = (None, false).
Proof. reflexivity. Qed.

(** With both GPU toggles set, as [init] allows, the integrated GPU is
    taken: it is enumerated before the discrete one. *)
Lemma GetHardwareAdapter_first_wanted_witness :
  exists t,
    init_toggles dawn_available both_gpus (fun _ => false) = Some t /\
    GetHardwareAdapter adapters_example None Vulkan t
    = (Some (mkAdapter Vulkan IntegratedGPU "integrated"), true).
Proof.
  eexists. split; [reflexivity|].
  eapply (proj1 (GetHardwareAdapter_first_wanted adapters_example None Vulkan _)
            [mkAdapter Vulkan OtherDevice "software";
             mkAdapter D3D12 DiscreteGPU "discrete (D3D12)"]
            (mkAdapter Vulkan IntegratedGPU "integrated")
            [mkAdapter Vulkan DiscreteGPU "discrete"]).
  - reflexivity.
  - split; [reflexivity|]. right. right. split; reflexivity.
  - repeat constructor; unfold wanted; simpl; intros [Hb Hd];
      try discriminate Hb;
      destruct Hd as [[Hd _]|[[_ Hd]|[_ Hd]]]; discriminate Hd.
Defined.

End Startup.

(** ** TextureDawn: the staging copies of a 2D texture *)

Module TextureDawn.
Import CArray.

Definition kPadding : Z := 256.

Definition int_mul (a b : Z) : Z := wrap_int (a * b).

(** The width to which [loadTexture] pads the rows of a 2D texture;
    [%] and [/] truncate, as in C++. *)
Definition resizedWidth (mWidth : Z) : Z :=
  if Z.rem mWidth kPadding =? 0 then mWidth
  else int_mul (int_add (Z.quot mWidth 256) 1) 256.

(** One upload: the staging buffer that is created, the layout given to
    [createBufferCopyView], the mip level and the extent of the copy. *)
Record BufferCopy := mkBufferCopy {
  staging_size : Z;
  bytesPerRow : Z;
  rowsPerImage : Z;
  mipLevel : Z;
  copy_width : Z;
  copy_height : Z
}.

(** The body of the loop over the mip levels at [i]. *)
Definition mip_copy (mWidth mHeight : Z) (i : Z) : BufferCopy :=
  let height := Z.shiftr mHeight i in
  let width := Z.shiftr (resizedWidth mWidth) i in
  let height := if height =? 0 then 1 else height in
  mkBufferCopy (int_mul (int_mul (resizedWidth mWidth) height) 4)
    (int_mul (resizedWidth mWidth) 4) height i width height.

(** [for (unsigned int i = 0; i < descriptor.mipLevelCount; ++i, ++count)]:
    the uploads of [loadTexture] for a 2D texture, in order. *)
Definition loadTexture_copies (mWidth mHeight mipLevelCount : Z) : list BufferCopy :=
  map (mip_copy mWidth mHeight) (upto mipLevelCount).

Lemma resizedWidth_spec mWidth :
  0 <= mWidth <= INT_MAX - 256 ->
  resizedWidth mWidth mod 256 = 0 /\
  mWidth <= resizedWidth mWidth < mWidth + 256.
Proof.
  intros Hw. unfold resizedWidth, kPadding, int_mul, int_add.
  rewrite Z.rem_mod_nonneg, Z.quot_div_nonneg by lia.
  destruct (Z.eqb_spec (mWidth mod 256) 0) as [Hz|Hnz].
  - split; [exact Hz | lia].
  - pose proof (Z.div_mod mWidth 256 ltac:(lia)) as Hdm.
    pose proof (Z.mod_pos_bound mWidth 256 ltac:(lia)) as Hmb.
    assert (0 <= mWidth / 256) as Hq by (apply Z.div_pos; lia).
    rewrite (wrap_int_id (mWidth / 256 + 1))
      by (unfold in_int, INT_MIN, INT_MAX in *; lia).
    rewrite wrap_int_id by (unfold in_int, INT_MIN, INT_MAX in *; lia).
    split; [apply Z.mod_mul; lia | lia].
Qed.

(** X18.  The padded width is the least multiple of 256 that is not
    below the width of the image (for a width that leaves room for the
    padding in an [int]). *)
Theorem resizedWidth_least_multiple mWidth :
  0 <= mWidth <= INT_MAX - 256 ->
  resizedWidth mWidth mod 256 = 0 /\
  mWidth <= resizedWidth mWidth /\
  forall m, m mod 256 = 0 -> mWidth <= m -> resizedWidth mWidth <= m.
Proof.
  intros Hw. destruct (resizedWidth_spec mWidth Hw) as [Hmod Hrange].
  split; [exact Hmod|]. split; [lia|].
  intros m Hm Hle.
  apply Z.mod_divide in Hmod; [|lia]. apply Z.mod_divide in Hm; [|lia].
  destruct Hmod as [a Ha]. destruct Hm as [b Hb]. lia.
Qed.

(** X19.  Every upload of a 2D texture reads within its staging buffer
    and has rows aligned to 256 bytes: the rows are [bytesPerRow] apart,
    which is a multiple of 256 and at least the bytes of a copied row;
    there are at least one and [rowsPerImage] rows; and the buffer is
    made of exactly [bytesPerRow * rowsPerImage] bytes.  This holds for
    every number of mip levels, for an image whose padded size in bytes
    is an [int]. *)
Theorem loadTexture_copies_fit mWidth mHeight mipLevelCount c :
  0 < mWidth -> 0 < mHeight ->
  (mWidth + 255) * mHeight * 4 <= INT_MAX ->
  In c (loadTexture_copies mWidth mHeight mipLevelCount) ->
  bytesPerRow c mod 256 = 0 /\
  4 * copy_width c <= bytesPerRow c /\
  1 <= copy_height c /\ rowsPerImage c = copy_height c /\
  staging_size c = bytesPerRow c * rowsPerImage c /\
  bytesPerRow c * (copy_height c - 1) + 4 * copy_width c <= staging_size c.
Proof.
  intros Hw Hh Hsize Hin. unfold loadTexture_copies in Hin.
  apply in_map_iff in Hin as (i & <- & Hi).
  apply list_elem_of_In, elem_of_upto in Hi.
  assert (0 <= mWidth <= INT_MAX - 256) as Hw' by (unfold INT_MAX in *; nia).
  destruct (resizedWidth_spec mWidth Hw') as [Hmod Hrange].
  set (r := resizedWidth mWidth) in *.
  assert (0 < 2 ^ i) as Hpow by (apply Z.pow_pos_nonneg; lia).
  assert (0 <= Z.shiftr mHeight i <= mHeight) as Hsh.
  { rewrite Z.shiftr_div_pow2 by lia. split; [apply Z.div_pos; lia|].
    apply Z.div_le_upper_bound; [lia | nia]. }
  assert (0 <= Z.shiftr r i <= r) as Hsw.
  { rewrite Z.shiftr_div_pow2 by lia. split; [apply Z.div_pos; lia|].
    apply Z.div_le_upper_bound; [lia | nia]. }
  unfold mip_copy. fold r. cbn [bytesPerRow copy_width copy_height rowsPerImage staging_size].
  set (height := if Z.shiftr mHeight i =? 0 then 1 else Z.shiftr mHeight i).
  assert (1 <= height <= mHeight) as Hheight.
  { unfold height. destruct (Z.eqb_spec (Z.shiftr mHeight i) 0); lia. }
  assert (r * height <= (mWidth + 255) * mHeight) as Hprod by nia.
  unfold int_mul.
  rewrite (wrap_int_id (r * 4)) by (unfold in_int, INT_MIN, INT_MAX in *; nia).
  rewrite (wrap_int_id (r * height)) by (unfold in_int, INT_MIN, INT_MAX in *; nia).
  rewrite (wrap_int_id (r * height * 4)) by (unfold in_int, INT_MIN, INT_MAX in *; nia).
  repeat split; try lia.
  apply Z.mod_divide; [lia|]. apply Z.mod_divide in Hmod; [|lia].
  destruct Hmod as [a Ha]. exists (a * 4). lia.
Qed.

(** A 300 x 200 image: rows of 512 texels, 2048 bytes. *)
Example loadTexture_copies_300 :
  loadTexture_copies 300 200 3
  = [mkBufferCopy 409600 2048 200 0 512 200;
     mkBufferCopy 204800 2048 100 1 256 100;
     mkBufferCopy 102400 2048 50 2 128 50].
Proof. reflexivity. Qed.

Lemma resizedWidth_least_multiple_witness :
  resizedWidth 300 mod 256 = 0 /\
  300 <= resizedWidth 300 /\
  forall m, m mod 256 = 0 -> 300 <= m -> resizedWidth 300 <= m.
Proof.
  apply (resizedWidth_least_multiple 300). unfold INT_MAX. lia.
Defined.

Lemma loadTexture_copies_fit_witness :
  let c := mkBufferCopy 204800 2048 100 1 256 100 in
  bytesPerRow c mod 256 = 0 /\
  4 * copy_width c <= bytesPerRow c /\
  1 <= copy_height c /\ rowsPerImage c = copy_height c /\
  staging_size c = bytesPerRow c * rowsPerImage c /\
  bytesPerRow c * (copy_height c - 1) + 4 * copy_width c <= staging_size c.
Proof.
  apply (loadTexture_copies_fit 300 200 3).
  - lia.
  - lia.
  - unfold INT_MAX. lia.
  - rewrite loadTexture_copies_300. right. left. reflexivity.
Defined.

End TextureDawn.

(** ** GenericModelDawn: the instance counter *)

Module GenericModelDawn.
Import CArray.

Section WithUniforms.

(** The type of the per-instance world uniforms. *)
Variable WorldUniforms : Type.

(** The two members that [updatePerInstanceUniforms] and [draw] share:
    the counter [instance] and the array [mWorldUniformPer.WorldUniforms]. *)
Record GenericModelDawn := mkGenericModelDawn {
  instance : Z;
  mWorldUniformPer : list WorldUniforms
}.

Inductive Event :=
| EvUpdateBufferData (uniforms : list WorldUniforms)
| EvWriteWorldUniforms (index : Z)
| EvDrawIndexed (instanceCount : Z).

(** [GenericModelDawn::prepareForDraw] *)
Definition prepareForDraw (m : GenericModelDawn) : GenericModelDawn * list Event :=
  (m, [EvUpdateBufferData (mWorldUniformPer m)]).

(** [GenericModelDawn::updatePerInstanceUniforms]; the index of the write
    is recorded, and a write outside the array (undefined in the source)
    leaves the array alone. *)
Definition updatePerInstanceUniforms (worldUniforms : WorldUniforms)
    (m : GenericModelDawn) : GenericModelDawn * list Event :=
  let i := instance m in
  let per :=
    if (0 <=? i) && (i <? Z.of_nat (length (mWorldUniformPer m)))
    then <[Z.to_nat i := worldUniforms]> (mWorldUniformPer m)
    else mWorldUniformPer m in
  (mkGenericModelDawn (int_add i 1) per, [EvWriteWorldUniforms i]).

(** [GenericModelDawn::draw]: the bindings set aside, one [DrawIndexed]
    with [instance] instances, and the counter back to 0. *)
Definition draw (m : GenericModelDawn) : GenericModelDawn * list Event :=
  (mkGenericModelDawn 0 (mWorldUniformPer m), [EvDrawIndexed (instance m)]).

(** The body of the loop of [Aquarium::updateAndDraw] over the world
    matrices of a model; [worldUniforms] is what the body computes from
    the matrix. *)
Definition world_turn (drawPerModel : bool) (st : GenericModelDawn * list Event)
    (worldUniforms : WorldUniforms) : GenericModelDawn * list Event :=
  let '(m, evs) := st in
  let '(m1, ev1) := updatePerInstanceUniforms worldUniforms m in
  if drawPerModel then (m1, evs ++ ev1)
  else let '(m2, ev2) := draw m1 in (m2, evs ++ ev1 ++ ev2).

(** What one frame of [Aquarium::updateAndDraw] asks of a model of the
    scenery: [prepareForDraw], the loop over its world matrices and, when
    drawing per model, the one [draw] of the batched pass. *)
Definition updateAndDraw_model (drawPerModel : bool) (worlds : list WorldUniforms)
    (m : GenericModelDawn) : GenericModelDawn * list Event :=
  let '(m0, ev0) := prepareForDraw m in
  let '(m1, ev1) := fold_left (world_turn drawPerModel) worlds (m0, ev0) in
  if drawPerModel then let '(m2, ev2) := draw m1 in (m2, ev1 ++ ev2)
  else (m1, ev1).

(** The instance counts of the draws of a trace. *)
Definition drawn (evs : list Event) : list Z :=
  flat_map (fun e => match e with EvDrawIndexed n => [n] | _ => [] end) evs.

Lemma drawn_app l1 l2 : drawn (l1 ++ l2) = drawn l1 ++ drawn l2.
Proof. unfold drawn. apply flat_map_app. Qed.

(** Drawing at once: the counter is 0 after every turn. *)
Lemma world_turns_direct worlds : forall m evs,
  instance m = 0 ->
  exists per,
    fold_left (world_turn false) worlds (m, evs)
    = (mkGenericModelDawn 0 per,
       evs ++ flat_map (fun _ => [EvWriteWorldUniforms 0; EvDrawIndexed 1]) worlds).
Proof.
  induction worlds as [|w worlds IH]; intros m evs Hm; simpl.
  - exists (mWorldUniformPer m). rewrite app_nil_r. destruct m; simpl in *. subst.
    reflexivity.
  - unfold updatePerInstanceUniforms, draw. rewrite Hm. cbn [instance mWorldUniformPer].
    change (int_add 0 1) with 1.
    match goal with
    | |- context [fold_left _ worlds (?m1, ?evs1)] =>
        destruct (IH m1 evs1 eq_refl) as [per Hper]
    end.
    exists per. rewrite Hper, <- !app_assoc. reflexivity.
Qed.

(** Drawing per model: the counter counts the turns. *)
Lemma world_turns_batched worlds : forall m evs,
  0 <= instance m ->
  instance m + Z.of_nat (length worlds) <= INT_MAX ->
  exists per,
    fold_left (world_turn true) worlds (m, evs)
    = (mkGenericModelDawn (instance m + Z.of_nat (length worlds)) per,
       evs ++ map (fun j => EvWriteWorldUniforms (instance m + j))
                (upto (Z.of_nat (length worlds)))).
Proof.
  induction worlds as [|w worlds IH]; intros m evs Hm Hmax.
  - exists (mWorldUniformPer m). simpl. rewrite app_nil_r, Z.add_0_r.
    destruct m; reflexivity.
  - cbn [fold_left world_turn]. unfold updatePerInstanceUniforms.
    assert (int_add (instance m) 1 = instance m + 1) as ->.
    { apply wrap_int_id. unfold in_int, INT_MIN, INT_MAX in *.
      cbn [length] in Hmax. lia. }
    match goal with
    | |- context [fold_left _ worlds (?m1, ?evs1)] =>
        destruct (IH m1 evs1) as [per Hper]
    end.
    + cbn [instance]. lia.
    + cbn [instance length] in *. lia.
    + exists per. rewrite Hper. cbn [instance length]. f_equal.
      * f_equal. lia.
      * rewrite <- app_assoc. f_equal. unfold upto.
        rewrite !Nat2Z.id. cbn [seq map app].
        rewrite Z.add_0_r. f_equal.
        rewrite <- seq_shift, !map_map. apply map_ext. intros j. f_equal. lia.
Qed.

(** X20.  In one frame a model of the scenery draws each of its
    placements once, in either mode, and hands the next frame a counter
    that is 0 again.  Drawing at once, every placement is written to entry
    0 of the uniform array and drawn by a [DrawIndexed] of one instance.
    Drawing per model, placement [j] is written to entry [j] and a single
    [DrawIndexed] draws them all, also when there is none. *)
Theorem updateAndDraw_model_instances drawPerModel worlds m :
  instance m = 0 ->
  Z.of_nat (length worlds) <= INT_MAX ->
  let n := Z.of_nat (length worlds) in
  exists per,
    updateAndDraw_model drawPerModel worlds m
    = (mkGenericModelDawn 0 per,
       [EvUpdateBufferData (mWorldUniformPer m)]
       ++ (if drawPerModel
           then map EvWriteWorldUniforms (upto n) ++ [EvDrawIndexed n]
           else flat_map (fun _ => [EvWriteWorldUniforms 0; EvDrawIndexed 1]) worlds)) /\
    Zsum (drawn (snd (updateAndDraw_model drawPerModel worlds m))) = n.
Proof.
  intros Hm Hmax n. unfold updateAndDraw_model, prepareForDraw.
  destruct drawPerModel.
  - destruct (world_turns_batched worlds m [EvUpdateBufferData (mWorldUniformPer m)])
      as [per Hper]; [lia | lia |].
    rewrite Hper, Hm. unfold draw. cbn [instance mWorldUniformPer snd].
    exists per. rewrite Z.add_0_l. fold n. split.
    + rewrite <- app_assoc. reflexivity.
    + rewrite !drawn_app.
      assert (drawn (map (fun j => EvWriteWorldUniforms (0 + j)) (upto n)) = []) as ->.
      { induction (upto n) as [|j l IHl]; [reflexivity | exact IHl]. }
      simpl. lia.
  - destruct (world_turns_direct worlds m [EvUpdateBufferData (mWorldUniformPer m)] Hm)
      as [per Hper].
    rewrite Hper. exists per. split; [reflexivity|].
    cbn [snd]. rewrite drawn_app, Zsum_app. unfold n. clear.
    change (Zsum (drawn [EvUpdateBufferData (mWorldUniformPer m)])) with 0.
    induction worlds as [|w worlds IH]; [reflexivity|].
    change (flat_map ?f (w :: worlds)) with (f w ++ flat_map f worlds).
    cbn beta. rewrite drawn_app, Zsum_app.
    change (Zsum (drawn [EvWriteWorldUniforms 0; EvDrawIndexed 1])) with 1.
    cbn [length]. rewrite Nat2Z.inj_succ. lia.
Qed.

End WithUniforms.

(** Three placements, drawn per model and drawn at once. *)
Example updateAndDraw_model_batched :
  snd (updateAndDraw_model string true ["a"; "b"; "c"]
         (mkGenericModelDawn string 0 [""; ""; ""; ""]))
  = [EvUpdateBufferData string [""; ""; ""; ""];
     EvWriteWorldUniforms string 0; EvWriteWorldUniforms string 1;
     EvWriteWorldUniforms string 2; EvDrawIndexed string 3].
Proof. reflexivity. Qed.

Example updateAndDraw_model_direct :
  updateAndDraw_model string false ["a"; "b"; "c"]
    (mkGenericModelDawn string 0 [""; ""; ""; ""])
  = (mkGenericModelDawn string 0 ["c"; ""; ""; ""],
     [EvUpdateBufferData string [""; ""; ""; ""];
      EvWriteWorldUniforms string 0; EvDrawIndexed string 1;
      EvWriteWorldUniforms string 0; EvDrawIndexed string 1;
      EvWriteWorldUniforms string 0; EvDrawIndexed string 1]).
Proof. reflexivity. Qed.

Lemma updateAndDraw_model_instances_witness :
  Zsum (drawn string
          (snd (updateAndDraw_model string true ["a"; "b"; "c"]
                  (mkGenericModelDawn string 0 [""; ""; ""; ""])))) = 3.
Proof.
  assert (Z.of_nat (length ["a"; "b"; "c"]) <= INT_MAX) as Hmax
    by (unfold INT_MAX; simpl; lia).
  destruct (updateAndDraw_model_instances string true ["a"; "b"; "c"]
              (mkGenericModelDawn string 0 [""; ""; ""; ""]) eq_refl Hmax)
    as (per & _ & Hsum).
  exact Hsum.
Defined.

End GenericModelDawn.

(** ** FPSTimer *)

Module FPSTimer.
Import CArray.

(** [double] and [float] values are modelled by exact rationals: sums,
    differences, products and quotients are the mathematical ones, without
    rounding, and a division by zero (an infinity in the source) gives 0. *)

Inductive Vec := TimeTable | HistoryFPS | HistoryFrameTime.

(** One use of [operator[]] on one of the three vectors. *)
Inductive Access :=
| Read (v : Vec) (i : Z)
| Write (v : Vec) (i : Z).

Record FPSTimer := mkFPSTimer {
  mTotalTime : Q;
  mTimeTable : list Q;
  mTimeTableCursor : Z;
  mHistoryFPS : list Q;
  mHistoryFrameTime : list Q;
  mAverageFPS : Q
}.

(** [v[i]] as a value.  [beyond] stands for whatever the memory after the
    vector holds: the source reads it when [i] is past the end. *)
Definition vget (beyond : Q) (v : list Q) (i : Z) : Q :=
  if (0 <=? i)%Z then default beyond (v !! Z.to_nat i) else beyond.

(** [v[i] = x].  A store outside the vector is undefined in the source;
    here it leaves the vector alone. *)
Definition vset (v : list Q) (i : Z) (x : Q) : list Q :=
  if ((0 <=? i) && (i <? Z.of_nat (length v)))%Z then <[Z.to_nat i := x]> v else v.

Section WithConstants.

(** The constants of FPSTimer.h, which is not among the sources at hand. *)
Variable NUM_FRAMES_TO_AVERAGE : Z.
Variable NUM_HISTORY_DATA : Z.
Variable FPS_VALID_THRESHOLD : Q.

Variable beyond : Q.

(** [FPSTimer::FPSTimer()] *)
Definition new : FPSTimer :=
  mkFPSTimer (inject_Z NUM_FRAMES_TO_AVERAGE)
    (replicate (Z.to_nat NUM_FRAMES_TO_AVERAGE) 1%Q)
    0
    (replicate (Z.to_nat NUM_HISTORY_DATA) 1%Q)
    (replicate (Z.to_nat NUM_HISTORY_DATA) 100%Q)
    0%Q.

(** The body of the shifting loop at [i]; the state is the two history
    vectors and the accesses made so far. *)
Definition shift (st : list Q * list Q * list Access) (i : Z)
  : list Q * list Q * list Access :=
  let '(fps, frameTime, log) := st in
  (vset fps i (vget beyond fps (i + 1)),
   vset frameTime i (vget beyond frameTime (i + 1)),
   log ++ [Read HistoryFPS (i + 1); Write HistoryFPS i;
           Read HistoryFrameTime (i + 1); Write HistoryFrameTime i]).

(** [FPSTimer::update]; the two arguments that the body does not use are
    left out.  The result carries the accesses in the order of the source. *)
Definition update (elapsedTime : Q) (s : FPSTimer) : FPSTimer * list Access :=
  let cursor := mTimeTableCursor s in
  let total := (mTotalTime s + (elapsedTime - vget beyond (mTimeTable s) cursor))%Q in
  let table := vset (mTimeTable s) cursor elapsedTime in
  let cursor' := (if cursor + 1 =? NUM_FRAMES_TO_AVERAGE then 0 else cursor + 1)%Z in
  let average :=
    inject_Z (Qfloor (1 / (total / inject_Z NUM_FRAMES_TO_AVERAGE) + (1 # 2)))%Q in
  let '(fps, frameTime, log) :=
    fold_left shift (upto NUM_HISTORY_DATA)
      (mHistoryFPS s, mHistoryFrameTime s, []) in
  (mkFPSTimer total table cursor'
     (vset fps (NUM_HISTORY_DATA - 1) average)
     (vset frameTime (NUM_HISTORY_DATA - 1) (1000 / average)%Q)
     average,
   [Read TimeTable cursor; Write TimeTable cursor] ++ log
   ++ [Write HistoryFPS (NUM_HISTORY_DATA - 1);
       Write HistoryFrameTime (NUM_HISTORY_DATA - 1)]).

(** The accesses to the two history vectors. *)
Definition history_index (a : Access) : option Z :=
  match a with
  | Read TimeTable _ | Write TimeTable _ => None
  | Read _ i | Write _ i => Some i
  end.

(** [FPSTimer::variance]; the [int] returned is that of [ceil(avg)]. *)
Definition variance (s : FPSTimer) : Z :=
  let avg :=
    fold_left (fun acc i => acc + vget beyond (mHistoryFPS s) i)%Q
      (upto NUM_HISTORY_DATA) 0%Q in
  let avg := (avg / inject_Z NUM_HISTORY_DATA)%Q in
  let var :=
    fold_left (fun acc i => acc + (vget beyond (mHistoryFPS s) i - avg) ^ 2)%Q
      (upto NUM_HISTORY_DATA) 0%Q in
  let var := (var / inject_Z NUM_HISTORY_DATA)%Q in
  if Qlt_le_dec var FPS_VALID_THRESHOLD then Qceiling avg else 0%Z.

(** *** The accesses of [update] *)

Definition shift_accesses (i : Z) : list Access :=
  [Read HistoryFPS (i + 1); Write HistoryFPS i;
   Read HistoryFrameTime (i + 1); Write HistoryFrameTime i].

Lemma fold_shift_log l : forall st,
  snd (fold_left shift l st) = snd st ++ flat_map shift_accesses l.
Proof.
  induction l as [|i l IH]; intros [[fps ft] log]; simpl.
  - rewrite app_nil_r. reflexivity.
  - rewrite IH. simpl. rewrite <- app_assoc. reflexivity.
Qed.

Lemma update_log elapsedTime s :
  snd (update elapsedTime s)
  = [Read TimeTable (mTimeTableCursor s); Write TimeTable (mTimeTableCursor s)]
    ++ flat_map shift_accesses (upto NUM_HISTORY_DATA)
    ++ [Write HistoryFPS (NUM_HISTORY_DATA - 1);
        Write HistoryFrameTime (NUM_HISTORY_DATA - 1)].
Proof.
  unfold update.
  pose proof (fold_shift_log (upto NUM_HISTORY_DATA)
                (mHistoryFPS s, mHistoryFrameTime s, [])) as Hlog.
  destruct (fold_left shift _ _) as [[fps ft] log]. simpl in Hlog. subst log.
  reflexivity.
Qed.

(** C8 fails on the code.  Every call of [update] reads both history
    vectors at index [NUM_HISTORY_DATA], one past their last element: the
    shifting loop runs [i] up to [NUM_HISTORY_DATA - 1] and reads element
    [i + 1].  All the other history indices are within bounds. *)
Theorem update_reads_past_end elapsedTime s :
  (0 < NUM_HISTORY_DATA)%Z ->
  In (Read HistoryFPS NUM_HISTORY_DATA) (snd (update elapsedTime s)) /\
  In (Read HistoryFrameTime NUM_HISTORY_DATA) (snd (update elapsedTime s)) /\
  (forall a i, In a (snd (update elapsedTime s)) -> history_index a = Some i ->
     (0 <= i <= NUM_HISTORY_DATA)%Z /\
     (i = NUM_HISTORY_DATA ->
      a = Read HistoryFPS NUM_HISTORY_DATA \/
      a = Read HistoryFrameTime NUM_HISTORY_DATA)).
Proof.
  intros Hpos. rewrite update_log.
  assert (In (NUM_HISTORY_DATA - 1)%Z (upto NUM_HISTORY_DATA)) as Hlast.
  { apply list_elem_of_In, elem_of_upto. lia. }
  assert (NUM_HISTORY_DATA - 1 + 1 = NUM_HISTORY_DATA)%Z as Hn by lia.
  split; [|split].
  - apply in_or_app. right. apply in_or_app. left.
    apply in_flat_map. exists (NUM_HISTORY_DATA - 1)%Z. split; [exact Hlast|].
    unfold shift_accesses. rewrite Hn. simpl. tauto.
  - apply in_or_app. right. apply in_or_app. left.
    apply in_flat_map. exists (NUM_HISTORY_DATA - 1)%Z. split; [exact Hlast|].
    unfold shift_accesses. rewrite Hn. simpl. tauto.
  - intros a i Hin Hidx.
    apply in_app_or in Hin as [Hin|Hin].
    { simpl in Hin. destruct Hin as [<-|[<-|[]]]; discriminate Hidx. }
    apply in_app_or in Hin as [Hin|Hin].
    + apply in_flat_map in Hin as (j & Hj & Hin).
      apply list_elem_of_In, elem_of_upto in Hj.
      simpl in Hin.
      destruct Hin as [<-|[<-|[<-|[<-|[]]]]]; simpl in Hidx;
        inversion Hidx; subst i; (split; [lia|]); intros Heq;
        try lia.
      * left. f_equal. exact Heq.
      * right. f_equal. exact Heq.
    + simpl in Hin. destruct Hin as [<-|[<-|[]]]; simpl in Hidx;
        inversion Hidx; subst i; (split; [lia|]); intros Heq; lia.
Qed.

(** *** [variance] against the textbook definitions *)

Definition Qsum (l : list Q) : Q := foldr Qplus 0%Q l.

(** Mean and population variance of a sample, as the spec words them. *)
Definition mean (h : list Q) : Q :=
  (Qsum h / inject_Z (Z.of_nat (length h)))%Q.

Definition population_variance (h : list Q) : Q :=
  (Qsum (map (fun x => (x - mean h) ^ 2) h) / inject_Z (Z.of_nat (length h)))%Q.

(** The nearest integer, halves up: the rounding that [update] uses. *)
Definition round_nearest (q : Q) : Z := Qfloor (q + (1 # 2)).

(** What the spec says [variance] returns. *)
Definition variance_rounded (h : list Q) : Z :=
  if Qlt_le_dec (population_variance h) FPS_VALID_THRESHOLD
  then round_nearest (mean h) else 0%Z.

Lemma vget_upto (h : list Q) :
  Z.of_nat (length h) = NUM_HISTORY_DATA ->
  map (vget beyond h) (upto NUM_HISTORY_DATA) = h.
Proof.
  intros Hlen. unfold upto. rewrite map_map, <- Hlen, Nat2Z.id.
  apply list_eq. intros i. rewrite list_lookup_fmap.
  destruct (decide (i < length h)%nat) as [Hlt|Hge].
  - rewrite lookup_seq_lt by lia. simpl. unfold vget.
    assert ((0 <=? Z.of_nat i)%Z = true) as -> by lia.
    rewrite Nat2Z.id. destruct (lookup_lt_is_Some_2 h i Hlt) as [x Hx].
    rewrite Hx. reflexivity.
  - rewrite lookup_seq_ge by lia. simpl. symmetry. apply lookup_ge_None. lia.
Qed.

Lemma fold_left_indices (f : Q -> Q) (h : list Q) (l : list Z) (acc : Q) :
  fold_left (fun a i => a + f (vget beyond h i))%Q l acc
  = fold_left (fun a x => a + f x)%Q (map (vget beyond h) l) acc.
Proof. revert acc. induction l as [|i l IH]; intros acc; simpl; [reflexivity | apply IH]. Qed.

Lemma fold_left_Qsum (f : Q -> Q) (h : list Q) : forall acc,
  (fold_left (fun a x => a + f x) h acc == acc + Qsum (map f h))%Q.
Proof.
  induction h as [|x h IH]; intros acc; simpl.
  - ring.
  - rewrite IH. ring.
Qed.

Lemma Qsum_squares_comp (c1 c2 : Q) (h : list Q) :
  (c1 == c2)%Q ->
  (Qsum (map (fun x => (x - c1) ^ 2) h) == Qsum (map (fun x => (x - c2) ^ 2) h))%Q.
Proof.
  intros Hc. induction h as [|x h IH]; simpl; [reflexivity|].
  rewrite IH, Hc. reflexivity.
Qed.

(** The two loops of [variance] compute the mean and the population
    variance of the history. *)
Lemma variance_loops (s : FPSTimer) :
  Z.of_nat (length (mHistoryFPS s)) = NUM_HISTORY_DATA ->
  let avg :=
    (fold_left (fun acc i => acc + vget beyond (mHistoryFPS s) i)
       (upto NUM_HISTORY_DATA) 0 / inject_Z NUM_HISTORY_DATA)%Q in
  let var :=
    (fold_left (fun acc i => acc + (vget beyond (mHistoryFPS s) i - avg) ^ 2)
       (upto NUM_HISTORY_DATA) 0 / inject_Z NUM_HISTORY_DATA)%Q in
  (avg == mean (mHistoryFPS s))%Q /\
  (var == population_variance (mHistoryFPS s))%Q.
Proof.
  intros Hlen avg var.
  assert (avg == mean (mHistoryFPS s))%Q as Havg.
  { unfold avg, mean.
    rewrite (fold_left_indices (fun x => x)), (vget_upto _ Hlen).
    rewrite fold_left_Qsum, map_id, Hlen. apply Qdiv_comp; [ring | reflexivity]. }
  split; [exact Havg|].
  unfold var, population_variance.
  rewrite (fold_left_indices (fun x => (x - avg) ^ 2)%Q), (vget_upto _ Hlen).
  rewrite fold_left_Qsum, Hlen.
  apply Qdiv_comp; [|reflexivity].
  rewrite (Qsum_squares_comp avg (mean (mHistoryFPS s)) _ Havg). ring.
Qed.

(** C7, as the code has it.  For every history of [NUM_HISTORY_DATA]
    values, [variance] computes the mean and the population variance of
    the history; when the variance is strictly below the threshold it
    returns the mean rounded up to the next integer (its ceiling, not the
    nearest integer), and 0 otherwise. *)
Theorem variance_ceiling_of_mean (s : FPSTimer) :
  Z.of_nat (length (mHistoryFPS s)) = NUM_HISTORY_DATA ->
  variance s
  = if Qlt_le_dec (population_variance (mHistoryFPS s)) FPS_VALID_THRESHOLD
    then Qceiling (mean (mHistoryFPS s)) else 0%Z.
Proof.
  intros Hlen. unfold variance.
  destruct (variance_loops s Hlen) as [Havg Hvar].
  cbv zeta in Havg, Hvar.
  destruct (Qlt_le_dec _ FPS_VALID_THRESHOLD) as [Hlt|Hge];
    destruct (Qlt_le_dec (population_variance _) FPS_VALID_THRESHOLD) as [Hlt'|Hge'].
  - apply Qceiling_comp, Havg.
  - rewrite Hvar in Hlt. exfalso. eapply Qlt_not_le; eassumption.
  - rewrite Hvar in Hge. exfalso. eapply Qlt_not_le; eassumption.
  - reflexivity.
Qed.

(** *** The running sum of the time table *)



Lemma vset_in_range (v : list Q) (i : Z) (x : Q) :
  (0 <= i < Z.of_nat (length v))%Z -> vset v i x = <[Z.to_nat i := x]> v.
Proof.
  intros Hi. unfold vset.
  assert ((0 <=? i)%Z = true) as -> by lia.
  assert ((i <? Z.of_nat (length v))%Z = true) as -> by lia. reflexivity.
Qed.

Lemma vset_length (v : list Q) (i : Z) (x : Q) : length (vset v i x) = length v.
Proof. unfold vset. destruct (_ && _); [apply length_insert | reflexivity]. Qed.





(** *** The history as a sliding window *)

(** The shifting loop on one vector. *)
Definition shift1 (v : list Q) (i : Z) : list Q :=
  vset v i (vget beyond v (i + 1)).

Lemma fold_shift_vectors l : forall fps ft log,
  fst (fold_left shift l (fps, ft, log))
  = (fold_left shift1 l fps, fold_left shift1 l ft).
Proof.
  induction l as [|i l IH]; intros fps ft log; simpl; [reflexivity|].
  rewrite IH. reflexivity.
Qed.

(** After the turns [0 .. k-1] of the loop, the places below [k] hold
    their right neighbour (the last one what lies behind the vector), and
    the other places are untouched. *)
Lemma fold_shift1_lookup (old : list Q) (k : nat) :
  (k <= length old)%nat ->
  let v := fold_left shift1 (map Z.of_nat (seq 0 k)) old in
  length v = length old /\
  forall j : nat, (j < length old)%nat ->
    v !! j = if decide (j < k)%nat then (old ++ [beyond]) !! S j else old !! j.
Proof.
  induction k as [|k IH]; intros Hk; cbv zeta.
  - simpl. split; [reflexivity|]. intros j Hj. reflexivity.
  - rewrite seq_S, map_app, fold_left_app. simpl.
    destruct (IH ltac:(lia)) as [Hlen Hlook].
    set (v := fold_left shift1 (map Z.of_nat (seq 0 k)) old) in *.
    unfold shift1. rewrite vset_length. split; [exact Hlen|].
    intros j Hj. rewrite vset_in_range by lia. rewrite Nat2Z.id.
    destruct (decide (j = k)) as [->|Hne].
    + rewrite list_lookup_insert_eq by lia.
      destruct (decide (k < S k)%nat); [|lia].
      unfold vget. assert ((0 <=? Z.of_nat k + 1)%Z = true) as -> by lia.
      replace (Z.to_nat (Z.of_nat k + 1)) with (S k) by lia.
      destruct (decide (S k < length old)%nat) as [Hin|Hout].
      * rewrite (Hlook (S k) Hin). destruct (decide (S k < k)%nat); [lia|].
        rewrite lookup_app_l by lia.
        destruct (lookup_lt_is_Some_2 old (S k) Hin) as [x ->]. reflexivity.
      * rewrite (proj2 (lookup_ge_None v (S k))) by lia. simpl.
        rewrite lookup_app_r by lia.
        replace (S k - length old)%nat with 0%nat by lia. reflexivity.
    + rewrite list_lookup_insert_ne by lia. rewrite (Hlook j Hj).
      destruct (decide (j < k)%nat), (decide (j < S k)%nat); try lia; reflexivity.
Qed.

Lemma slide (old : list Q) (x : Q) :
  (0 < length old)%nat ->
  vset (fold_left shift1 (upto (Z.of_nat (length old))) old)
       (Z.of_nat (length old) - 1) x
  = drop 1 old ++ [x].
Proof.
  intros Hpos. unfold upto. rewrite Nat2Z.id.
  destruct (fold_shift1_lookup old (length old) ltac:(lia)) as [Hlen Hlook].
  set (v := fold_left shift1 (map Z.of_nat (seq 0 (length old))) old) in *.
  rewrite vset_in_range by lia.
  apply list_eq. intros j.
  destruct (decide (j < length old)%nat) as [Hj|Hj].
  - destruct (decide (j = length old - 1)%nat) as [->|Hne].
    + replace (Z.to_nat (Z.of_nat (length old) - 1)) with (length old - 1)%nat by lia.
      rewrite list_lookup_insert_eq by lia.
      rewrite lookup_app_r by (rewrite length_drop; lia).
      rewrite length_drop. replace (length old - 1 - (length old - 1))%nat with 0%nat by lia.
      reflexivity.
    + rewrite list_lookup_insert_ne by lia. rewrite (Hlook j Hj).
      destruct (decide (j < length old)%nat); [|lia].
      rewrite lookup_app_l by lia.
      rewrite lookup_app_l by (rewrite length_drop; lia).
      rewrite lookup_drop. reflexivity.
  - rewrite (proj2 (lookup_ge_None _ j)) by (rewrite length_insert; lia).
    symmetry. apply lookup_ge_None. rewrite length_app, length_drop. simpl. lia.
Qed.

(** The history fields of the state after [update]. *)
Lemma update_history elapsedTime s :
  let s' := fst (update elapsedTime s) in
  mHistoryFPS s'
    = vset (fold_left shift1 (upto NUM_HISTORY_DATA) (mHistoryFPS s))
        (NUM_HISTORY_DATA - 1) (mAverageFPS s') /\
  mHistoryFrameTime s'
    = vset (fold_left shift1 (upto NUM_HISTORY_DATA) (mHistoryFrameTime s))
        (NUM_HISTORY_DATA - 1) (1000 / mAverageFPS s')%Q.
Proof.
  unfold update.
  pose proof (fold_shift_vectors (upto NUM_HISTORY_DATA)
                (mHistoryFPS s) (mHistoryFrameTime s) []) as Hvec.
  destruct (fold_left shift _ _) as [[fps ft] log]. simpl in Hvec.
  inversion Hvec; subst fps ft. simpl. split; reflexivity.
Qed.


(** X3.  The two histories are sliding windows: after [update] each is
    the old history without its first entry, followed by the new averaged
    value (for the frame times, 1000 over it).  The value that the loop
    reads beyond the end of the vector is overwritten before the call
    returns, so the result does not depend on it. *)
Theorem update_slides_history elapsedTime s :
  (0 < NUM_HISTORY_DATA)%Z ->
  Z.of_nat (length (mHistoryFPS s)) = NUM_HISTORY_DATA ->
  Z.of_nat (length (mHistoryFrameTime s)) = NUM_HISTORY_DATA ->
  let s' := fst (update elapsedTime s) in
  mHistoryFPS s' = drop 1 (mHistoryFPS s) ++ [mAverageFPS s'] /\
  mHistoryFrameTime s'
    = drop 1 (mHistoryFrameTime s) ++ [(1000 / mAverageFPS s')%Q].
Proof.
  intros Hpos Hfps Hft. cbv zeta.
  destruct (update_history elapsedTime s) as [-> ->].
  split.
  - rewrite <- Hfps at 1 2. apply slide. lia.
  - rewrite <- Hft at 1 2. apply slide. lia.
Qed.

(** *** A full window of identical samples *)








(** *** The states that a timer reaches *)





(** *** A steady frame rate *)






End WithConstants.

(** *** Concrete runs *)

(** Modelled from the spec: the constants of FPSTimer.h, which is not
    among the sources at hand.  The spec gives their order of magnitude (a
    window of an order of a hundred frame times, a history of about a
    hundred averaged values, a fixed stability threshold); the values are
    those of the reference build. *)
Definition NUM_FRAMES_TO_AVERAGE : Z := 128.
Definition NUM_HISTORY_DATA : Z := 100.
Definition FPS_VALID_THRESHOLD : Q := 5.

(** A timer whose history holds 75 times 60 and 25 times 61 frames per
    second: mean 60.25, population variance 0.1875. *)
Definition steady : FPSTimer :=
  mkFPSTimer 2 (replicate 128 (1 # 64)) 0
    (replicate 75 60%Q ++ replicate 25 61%Q)
    (replicate 100 (100 # 6)) 60.

Example steady_mean : (mean (mHistoryFPS steady) == 6025 # 100)%Q.
Proof. reflexivity. Qed.

Example steady_variance : (population_variance (mHistoryFPS steady) == 1875 # 10000)%Q.
Proof. vm_compute. reflexivity. Qed.

(** The sentence of C7 fails on the rounding: for this history the
    variance is below the threshold, the mean is 60.25, the nearest integer
    is 60, and [variance] returns 61. *)
Lemma variance_not_nearest :
  variance NUM_HISTORY_DATA FPS_VALID_THRESHOLD 0 steady = 61%Z /\
  variance_rounded FPS_VALID_THRESHOLD (mHistoryFPS steady) = 60%Z.
Proof. split; vm_compute; reflexivity. Qed.

(** An unsteady history: the variance is 100, above the threshold. *)
Example variance_unsteady :
  variance NUM_HISTORY_DATA FPS_VALID_THRESHOLD 0
    (mkFPSTimer 2 [] 0 (replicate 50 50%Q ++ replicate 50 70%Q) [] 60) = 0%Z.
Proof. vm_compute. reflexivity. Qed.

Lemma variance_ceiling_of_mean_witness :
  variance NUM_HISTORY_DATA FPS_VALID_THRESHOLD 0 steady
  = if Qlt_le_dec (population_variance (mHistoryFPS steady)) FPS_VALID_THRESHOLD
    then Qceiling (mean (mHistoryFPS steady)) else 0%Z.
Proof.
  apply (variance_ceiling_of_mean NUM_HISTORY_DATA FPS_VALID_THRESHOLD 0 steady).
  reflexivity.
Defined.

(** The first call of [update] on a new timer, at 60 frames per second. *)
Example update_new_accesses :
  List.filter (fun a => match history_index a with
                        | Some i => (NUM_HISTORY_DATA <=? i)%Z
                        | None => false
                        end)
    (snd (update NUM_FRAMES_TO_AVERAGE NUM_HISTORY_DATA 0 (1 # 60)
            (new NUM_FRAMES_TO_AVERAGE NUM_HISTORY_DATA)))
  = [Read HistoryFPS 100; Read HistoryFrameTime 100].
Proof. vm_compute. reflexivity. Qed.

Lemma update_reads_past_end_witness :
  In (Read HistoryFPS NUM_HISTORY_DATA)
     (snd (update NUM_FRAMES_TO_AVERAGE NUM_HISTORY_DATA 0 (1 # 60)
             (new NUM_FRAMES_TO_AVERAGE NUM_HISTORY_DATA))).
Proof.
  assert (0 < NUM_HISTORY_DATA)%Z as Hpos by (unfold NUM_HISTORY_DATA; lia).
  exact (proj1 (update_reads_past_end NUM_FRAMES_TO_AVERAGE NUM_HISTORY_DATA 0
                  (1 # 60) (new NUM_FRAMES_TO_AVERAGE NUM_HISTORY_DATA) Hpos)).
Defined.


Lemma update_slides_history_witness :
  let s' := fst (update NUM_FRAMES_TO_AVERAGE NUM_HISTORY_DATA 0 (1 # 60) steady) in
  mHistoryFPS s' = drop 1 (mHistoryFPS steady) ++ [mAverageFPS s'] /\
  mHistoryFrameTime s'
    = drop 1 (mHistoryFrameTime steady) ++ [(1000 / mAverageFPS s')%Q].
Proof.
  assert (0 < NUM_HISTORY_DATA)%Z as Hpos by (unfold NUM_HISTORY_DATA; lia).
  exact (update_slides_history NUM_FRAMES_TO_AVERAGE NUM_HISTORY_DATA 0 (1 # 60)
           steady Hpos eq_refl eq_refl).
Defined.




Example round_nearest_60 : round_nearest (1 / (1 # 60)) = 60%Z.
Proof. reflexivity. Qed.

End FPSTimer.
